(** * sankey-plotly-react: [src/dataProcessor.ts] and the page that calls it

    A shallow embedding of [processParquetData] and its helpers
    ([standardizePercent], [yearEndSnapshotFfill], [buildYearGrid],
    [getBucket]) and of the React components [App] and [SankeyChart].

    The source works on danfojs frames, but writes its frame calls with
    the names and the options of pandas: [dropna], [rolling],
    [sortValues] with a list of columns, [fillNa] with [ffill],
    [groupby(...).tail], [merge] with [indicator], [transform],
    [toNumeric], [log], [clip].  The file therefore holds two things.
    - The pipeline as it is written (first part).  Each frame call is
      given the meaning its name and options have in pandas; the plain
      JavaScript of the source (the column check, [buildYearGrid],
      [getBucket], the node, link and layout code of steps 4 to 6) is
      translated as it stands.  A statement about the graphs this
      pipeline returns is a statement about the node, link and layout
      code on the flow tables of that reading.
    - The run under danfojs ([Danfojs]): the first statement after the
      column check assigns to a column a value that the setter of the
      library refuses, so a run ends there.

    Conventions of the embedding.
    - A finite JavaScript number is the rational it denotes; a cell of a
      frame that may be missing (NaN, null, undefined) is an [option Q].
      In [getBucket] the constants and the operations on them are rounded
      to doubles by [fl], so its comparisons are those of the source.
      Elsewhere arithmetic is exact: the rounding of the sums, products
      and quotients of steps 2 to 6 is not modelled, and no statement
      below depends on the exact value of a coordinate.
    - [Math.log] has no rational counterpart: the weight transformation is
      written in a section over an arbitrary function [ln : Q -> Q].
    - Sums are the [reduce((a, b) => a + b)] of JavaScript: one missing
      summand makes the sum missing. *)

From Stdlib Require Import ZArith QArith Qabs Qround Lqa Lia.
From Stdlib Require Import List Bool Ascii String.
From stdpp Require Import gmap strings pretty sorting.
Import ListNotations.

Local Open Scope Q_scope.
Local Open Scope string_scope.
Local Open Scope list_scope.

(* ------------------------------------------------------------------ *)
(** ** Numbers *)

(** A JavaScript number: finite, one of the infinities, or NaN. *)
Inductive number : Type :=
  | Fin (q : Q)
  | PosInf
  | NegInf
  | NaN.


(** [a < b] on finite numbers. *)
Definition Qltb (a b : Q) : bool := negb (Qle_bool b a).

(** *** Doubles

    A finite JavaScript number is a binary64 number, and is identified
    with the rational it denotes.  Comparisons of doubles are the
    comparisons of these rationals.  A decimal literal and the result of
    an addition or subtraction are the nearest double, ties to even:
    [fl]. *)

(** [pow2 e] is 2^e. *)
Definition pow2 (e : Z) : Q :=
  if (0 <=? e)%Z then inject_Z (2 ^ e) else 1 / inject_Z (2 ^ (- e)).

(** The integer nearest to [q], ties to even. *)
Definition roundHalfEven (q : Q) : Z :=
  let f := Qfloor q in
  match Qcompare (q - inject_Z f) (1 # 2) with
  | Lt => f
  | Gt => (f + 1)%Z
  | Eq => if Z.even f then f else (f + 1)%Z
  end.

(** The integer part of the binary logarithm of [q], for [0 < q]. *)
Definition ilog2 (q : Q) : Z :=
  let l := (Z.log2 (Qnum q) - Z.log2 (Zpos (Qden q)))%Z in
  if Qle_bool (pow2 l) q then l else (l - 1)%Z.

(** The double nearest to [q], for [q] below 2^1024 in absolute value:
    53 significant bits, the last of them not below 2^-1074. *)
Definition fl (q : Q) : Q :=
  if Qeq_bool q 0 then 0
  else
    let a := Qabs q in
    let e := Z.max (ilog2 a - 52) (-1074) in
    let m := roundHalfEven (a / pow2 e) in
    Qred ((if Qle_bool 0 q then 1 else -1) * inject_Z m * pow2 e).

(* ------------------------------------------------------------------ *)
(** ** Parameters (the constants of the source) *)

Definition MA_MONTHS : nat := 12.
Definition STEP_YEARS : Z := 4.

Record Bucket : Type := mkBucket { lo : Q; hi : Q; name : string }.

(** The bounds are the doubles of the literals: 50, 20, 10 and 0 are
    doubles, 100.1 is not. *)
Definition OWN_BUCKETS : list Bucket :=
  [ mkBucket 50 (fl 100.1) "State ≥50%";
    mkBucket 20 50 "State 20–50%";
    mkBucket 10 20 "State 10–20%";
    mkBucket 0 10 "State 0–10%";
    mkBucket 0 0 "State 0%" ].

Definition UNKNOWN_LABEL : string := "Unknown".
Definition EXIT_LABEL : string := "Exit".

Definition UNIT_SCALE : Q := 1000000000.
Definition CLIP_LO : Q := 0.02.
Definition CLIP_HI : Q := 0.98.

Definition GREEN : string := "rgba(76,175,80,0.65)".
Definition RED : string := "rgba(244,67,54,0.70)".

Definition NODE_COLORS : gmap string string :=
  <["State ≥50%" := "rgba(244,67,54,0.90)"]>
  (<["State 20–50%" := "rgba(255,193,7,0.90)"]>
  (<["State 10–20%" := "rgba(0,150,136,0.90)"]>
  (<["State 0–10%" := "rgba(63,81,181,0.90)"]>
  (<["State 0%" := "rgba(33,150,243,0.90)"]>
  (<[UNKNOWN_LABEL := "rgba(158,158,158,0.80)"]>
  (<[EXIT_LABEL := "rgba(120,120,120,0.75)"]> ∅)))))).

Definition CAT_ORDER : list string :=
  (name <$> OWN_BUCKETS) ++ [UNKNOWN_LABEL; EXIT_LABEL].

(** The tolerance [1e-12] of [getBucket], a double, and the threshold
    [1e-9] of the share and layout computations. *)
Definition EPS_BUCKET : Q := fl (1 # 1000000000000).
Definition EPS_TOTAL : Q := 1 # 1000000000.

(* ------------------------------------------------------------------ *)
(** ** getBucket *)

(** [b.lo - 1e-12] and [b.hi + 1e-12], each rounded to a double as the
    subtraction and the addition of the source are. *)
Definition lowEdge (lo : Q) : Q := fl (lo - EPS_BUCKET).
Definition highEdge (hi : Q) : Q := fl (hi + EPS_BUCKET).

(** The predicate of [OWN_BUCKETS.find] in [getBucket]. *)
Definition inBucket (p : Q) (b : Bucket) : bool :=
  negb (String.eqb (name b) "State 0%")
  && Qltb (lowEdge (lo b)) p
  && Qltb p (highEdge (hi b)).

(** [None] is null or undefined. *)
Definition getBucket (p : option number) : string :=
  match p with
  | Some (Fin q) =>
      if Qltb (Qabs q) EPS_BUCKET then "State 0%"
      else match find (inBucket q) OWN_BUCKETS with
           | Some bucket => name bucket
           | None => UNKNOWN_LABEL
           end
  | _ => UNKNOWN_LABEL
  end.

(* ------------------------------------------------------------------ *)
(** ** Table primitives

    From here to step 3 the frame calls of the source are read as the
    pandas calls of the same name. *)

(** [Series.dropna().values]: the non-missing cells, in order. *)
Fixpoint dropna (s : list (option Q)) : list Q :=
  match s with
  | [] => []
  | Some v :: s' => v :: dropna s'
  | None :: s' => dropna s'
  end.

Definition Qsum (l : list Q) : Q := fold_right Qplus 0 l.

(** JavaScript [+] on cells and [reduce((a, b) => a + b)]: NaN absorbs. *)
Definition oadd (a b : option Q) : option Q :=
  match a, b with
  | Some x, Some y => Some (x + y)
  | _, _ => None
  end.

Definition osum (l : list (option Q)) : option Q :=
  fold_right oadd (Some 0) l.

(** [x || 0] on a cell: NaN (and 0) give 0. *)
Definition orZero (a : option Q) : Q :=
  match a with Some x => x | None => 0 end.

Section Sorting.
Context {A : Type} (le : A -> A -> bool).

(** A stable sort ([Array.prototype.sort] is stable): an element goes
    in front of the first element it is not above. *)
Fixpoint insert (x : A) (l : list A) : list A :=
  match l with
  | [] => [x]
  | y :: l' => if le x y then x :: l else y :: insert x l'
  end.

Fixpoint sortBy (l : list A) : list A :=
  match l with
  | [] => []
  | x :: l' => insert x (sortBy l')
  end.
End Sorting.

Section Keys.
Context {K : Type} `{EqDecision K}.

(** The distinct keys, in the order of their first occurrence. *)
Fixpoint uniq (l : list K) : list K :=
  match l with
  | [] => []
  | k :: l' => k :: filter (fun k' => k' <> k) (uniq l')
  end.

Context {A : Type} (key : A -> K).

(** [groupby(keys)]: every distinct key with its rows, in table order. *)
Definition groupby (l : list A) : list (K * list A) :=
  (fun k => (k, filter (fun x => key x = k) l)) <$> uniq (key <$> l).

(** [groupby(keys).tail(1)]: the last row of every group. *)
Definition groupTail (l : list A) : list A :=
  groupby l ≫= (fun g => match last (snd g) with
                         | Some x => [x]
                         | None => []
                         end).
End Keys.

(* ------------------------------------------------------------------ *)
(** ** Data model *)

(** A timestamp: its calendar year ([dt.year()]) and its position inside
    that year.  Timestamps are ordered by year, then by position. *)
Record date : Type := mkDate { year_of : Z; tick : Z }.

Definition dateLe (a b : date) : bool :=
  (year_of a <? year_of b)%Z
  || ((year_of a =? year_of b)%Z && (tick a <=? tick b)%Z).

(** The numeric columns of the working table [DF]. *)
Inductive Col : Type := INDICATOR_COL | STATE_EQUITY_PCT | INDICATOR_MA.

(** A row of [DF] after the type coercions of step 1. *)
Record Row : Type := mkRow {
  DT : date;
  REGN : Z;
  total_deposits : option Q;
  state_equity_pct : option Q;
  indicator_ma : option Q
}.

(** The input table: the column names it carries and its rows. *)
Record Table : Type := mkTable { columns : list string; rows : list Row }.

Definition getc (c : Col) (r : Row) : option Q :=
  match c with
  | INDICATOR_COL => total_deposits r
  | STATE_EQUITY_PCT => state_equity_pct r
  | INDICATOR_MA => indicator_ma r
  end.

Definition setc (c : Col) (v : option Q) (r : Row) : Row :=
  match c with
  | INDICATOR_COL => mkRow (DT r) (REGN r) v (state_equity_pct r) (indicator_ma r)
  | STATE_EQUITY_PCT => mkRow (DT r) (REGN r) (total_deposits r) v (indicator_ma r)
  | INDICATOR_MA => mkRow (DT r) (REGN r) (total_deposits r) (state_equity_pct r) v
  end.

(** The column [year] that [yearEndSnapshotFfill] adds. *)
Definition year (r : Row) : Z := year_of (DT r).

Definition rowKey (r : Row) : Z * Z := (REGN r, year r).

(** [sortValues(['REGN', 'year', 'DT'])]. *)
Definition rowLe (a b : Row) : bool :=
  (REGN a <? REGN b)%Z
  || ((REGN a =? REGN b)%Z
      && ((year a <? year b)%Z
          || ((year a =? year b)%Z && dateLe (DT a) (DT b)))).

(** [sortValues(['REGN', 'DT'])]. *)
Definition rowLe2 (a b : Row) : bool :=
  (REGN a <? REGN b)%Z || ((REGN a =? REGN b)%Z && dateLe (DT a) (DT b)).

(** A row of an annual snapshot: the columns [REGN], [DT], [year] and the
    requested columns, in the order they were requested. *)
Record Snapshot : Type := mkSnapshot {
  s_REGN : Z;
  s_DT : date;
  s_year : Z;
  s_vals : list (option Q)
}.

Definition snapKey (s : Snapshot) : Z * Z := (s_REGN s, s_year s).

(** A weighted snapshot, the row of [mergedSnap]. *)
Record Weighted : Type := mkWeighted {
  m_REGN : Z;
  m_year : Z;
  m_state_equity_pct : option Q;
  m_indicator_ma : option Q;
  w_t : option Q;
  w_raw : option Q
}.

(* ------------------------------------------------------------------ *)
(** ** standardizePercent *)

(** [Math.floor(c * (n - 1))], the index of a percentile. *)
Definition rank (c : Q) (n : nat) : nat :=
  Z.to_nat (Qfloor (c * inject_Z (Z.of_nat (n - 1)))).

Definition standardizePercent (s : list (option Q)) : list (option Q) :=
  let arr := dropna s in
  match arr with
  | [] => s
  | _ =>
      let absArr := sortBy Qle_bool (Qabs <$> arr) in
      let p95_val := default 0 (absArr !! rank 0.95 (length absArr)) in
      if Qltb 1.5 p95_val then s
      else (fun cell : option Q => (fun val => val * 100) <$> cell) <$> s
  end.

(* ------------------------------------------------------------------ *)
(** ** The rolling mean *)

(** The cells of the window that ends at position [i]. *)
Definition window (w : nat) (l : list (option Q)) (i : nat) : list (option Q) :=
  drop (i + 1 - w) (take (i + 1) l).

(** The mean of the non-missing cells when there are at least
    [minPeriods] of them. *)
Definition windowMean (minPeriods : nat) (win : list (option Q)) : option Q :=
  let vals := dropna win in
  if (minPeriods <=? length vals)%nat
  then Some (Qsum vals / inject_Z (Z.of_nat (length vals)))
  else None.

Definition rollingMean (w minPeriods : nat) (l : list (option Q)) : list (option Q) :=
  (fun i => windowMean minPeriods (window w l i)) <$> seq 0 (length l).

Definition min_periods : nat := Nat.max 1 (MA_MONTHS / 3).

(** Step 2 up to [DF.addColumn('indicator_ma', maValues)]: [DF] is sorted
    by entity and time, the moving average is taken group by group in the
    order of the sorted entity ids, and the values are attached by
    position. *)
Definition addIndicatorMa (DF : list Row) : list Row :=
  let DF := sortBy rowLe2 DF in
  let regnKeys := sortBy Z.leb (uniq (REGN <$> DF)) in
  let maValues :=
    regnKeys ≫= (fun key =>
                   rollingMean MA_MONTHS min_periods
                     (total_deposits <$> filter (fun r => REGN r = key) DF)) in
  zip_with (fun r v => setc INDICATOR_MA v r) DF maValues.

(* ------------------------------------------------------------------ *)
(** ** yearEndSnapshotFfill *)

(** [fillNa({ method: 'ffill' })] on column [c] of a group: a missing
    cell takes the last value seen above it. *)
Fixpoint ffillFrom (c : Col) (prev : option Q) (group : list Row) : list Row :=
  match group with
  | [] => []
  | r :: group' =>
      let v := match getc c r with Some x => Some x | None => prev end in
      setc c v r :: ffillFrom c v group'
  end.

Definition ffillCol (group : list Row) (c : Col) : list Row :=
  ffillFrom c None group.

(** [loc({ columns: ['REGN', 'DT', 'year', ...cols] })]. *)
Definition locCols (cols : list Col) (r : Row) : Snapshot :=
  mkSnapshot (REGN r) (DT r) (year r) ((fun c => getc c r) <$> cols).

(** The two early returns of the source give the empty table, which is
    also what the general path computes from no rows. *)
Definition yearEndSnapshotFfill (dataframe : list Row) (cols : list Col)
  : list Snapshot :=
  let tmp := sortBy rowLe dataframe in
  let uniqueKeys := uniq (rowKey <$> tmp) in
  let filledDfs :=
    (fun k => foldl ffillCol (filter (fun r => rowKey r = k) tmp) cols)
      <$> uniqueKeys in
  let filledDf := sortBy rowLe (concat filledDfs) in
  let snapshot := groupTail rowKey filledDf in
  locCols cols <$> snapshot.

(* ------------------------------------------------------------------ *)
(** ** Weights *)

Inductive TransformMode : Type := signed_log | identity.

Definition TRANSFORM_MODE : TransformMode := signed_log.
Definition CLIP_ENABLED : bool := true.

(** [clip({ lower })] and [clip({ lower, upper })] on one cell. *)
Definition clipLower (lower : Q) (v : option Q) : option Q :=
  (fun x => if Qltb x lower then lower else x) <$> v.

Definition clip (lower upper : Q) (v : option Q) : option Q :=
  (fun x => if Qltb x lower then lower
            else if Qltb upper x then upper else x) <$> v.

(** The percentile bounds of step 2: [arr] is the sorted array of the
    non-missing weights; an index outside the array reads [undefined]. *)
Definition clipBounds (wt : list (option Q)) : option Q * option Q :=
  let arr := sortBy Qle_bool (dropna wt) in
  (arr !! rank CLIP_LO (length arr), arr !! rank CLIP_HI (length arr)).

(** [isFinite(lo) && isFinite(hi) && hi > lo]. *)
Definition boundsUsable (bounds : option Q * option Q) : bool :=
  match bounds with
  | (Some lo, Some hi) => Qltb lo hi
  | _ => false
  end.

Definition clipGlobal (wt : list (option Q)) : list (option Q) :=
  if CLIP_ENABLED then
    if (0 <? length (dropna wt))%nat then
      let bounds := clipBounds wt in
      if boundsUsable bounds
      then clip (orZero (fst bounds)) (orZero (snd bounds)) <$> wt
      else wt
    else wt
  else wt.

(** [df.merge({ left, right, on: ['REGN', 'year'], how: 'left' })] with
    the single value column of the right table renamed [indicator_raw]. *)
Definition mergeLeft (left right : list Snapshot) : list (Snapshot * option Q) :=
  left ≫= (fun l =>
             match filter (fun r => snapKey r = snapKey l) right with
             | [] => [(l, None)]
             | ms => (fun r => (l, mjoin (s_vals r !! 0%nat))) <$> ms
             end).

(** The rows of [mergedSnap] from its columns. *)
Fixpoint assemble (merged : list (Snapshot * option Q))
    (ma wt wraw : list (option Q)) : list Weighted :=
  match merged, ma, wt, wraw with
  | m :: merged', a :: ma', t :: wt', r :: wraw' =>
      mkWeighted (s_REGN (fst m)) (s_year (fst m)) (mjoin (s_vals (fst m) !! 0%nat)) a t r
      :: assemble merged' ma' wt' wraw'
  | _, _, _, _ => []
  end.

Section Weights.
(** [Math.log]. *)
Variable ln : Q -> Q.

(** [s.abs().add(1).log()] in [signed_log] mode, [s] otherwise. *)
Definition transform (s : option Q) : option Q :=
  match TRANSFORM_MODE with
  | signed_log => (fun v => ln (Qabs v + 1)) <$> s
  | identity => s
  end.

(** The column [w_t] before the percentile clip. *)
Definition baseWeights (s : list (option Q)) : list (option Q) :=
  (fun v => clipLower 0 (transform v)) <$> s.

(** The columns [w_t] and [w_raw] from the column [indicator_ma]. *)
Definition weights (s : list (option Q)) : list (option Q) * list (option Q) :=
  (clipGlobal (baseWeights s), clipLower 0 <$> s).

(** Step 2 from the two snapshots to [mergedSnap]. *)
Definition mergedSnapOf (DF : list Row) : list Weighted :=
  let SNAP := yearEndSnapshotFfill DF [STATE_EQUITY_PCT; INDICATOR_MA] in
  let RAW_SNAP := yearEndSnapshotFfill DF [INDICATOR_COL] in
  let merged := mergeLeft SNAP RAW_SNAP in
  let indicatorMaFilled :=
    (fun m => match mjoin (s_vals (fst m) !! 1%nat) with
              | None => snd m
              | Some v => Some v
              end) <$> merged in
  let w := weights indicatorMaFilled in
  assemble merged indicatorMaFilled (fst w) (snd w).
End Weights.

(** Step 1 after the column check: the percentage column is put on the
    percent scale. *)
Definition standardizeDF (DF : list Row) : list Row :=
  zip_with (fun r v => setc STATE_EQUITY_PCT v r)
           DF (standardizePercent (state_equity_pct <$> DF)).

(* ------------------------------------------------------------------ *)
(** ** Step 3: the year grid and the flows *)

(** The loop of [buildYearGrid]; with a positive step it runs at most
    [max_year - min_year + 1] times, which is the fuel it is given. *)
Fixpoint gridLoop (fuel : nat) (y max_year step : Z) : list Z :=
  match fuel with
  | O => []
  | S fuel' =>
      if (y <=? max_year)%Z then y :: gridLoop fuel' (y + step)%Z max_year step
      else []
  end.

Definition buildYearGrid (min_year max_year step : Z) : list Z :=
  let years := gridLoop (Z.to_nat (max_year - min_year) + 1) min_year max_year step in
  match last years with
  | None => years ++ [max_year]
  | Some y => if (y <? max_year)%Z then years ++ [max_year] else years
  end.

(** [YEARS].  A table without rows has no smallest year: the source then
    builds a grid of one undefined year, here it is the empty grid; both
    are shorter than two. *)
Definition yearGrid (mergedSnap : list Weighted) : list Z :=
  match m_year <$> mergedSnap with
  | [] => []
  | y :: ys => buildYearGrid (foldl Z.min y ys) (foldl Z.max y ys) STEP_YEARS
  end.

(** The pairs [(YEARS[i], YEARS[i+1])]. *)
Definition steps (YEARS : list Z) : list (Z * Z) := zip YEARS (tail YEARS).

Inductive FlowType : Type := active | exit.

(** A row of [linkRows]. *)
Record LinkRow : Type := mkLinkRow {
  cat_from : string;
  cat_to : string;
  weight : option Q;
  count : nat;
  raw_sum : option Q;
  level_from : Z;
  level_to : Z;
  flow_type : FlowType
}.

(** The column [bucket] of [mergedSnap]. *)
Definition bucket (r : Weighted) : string :=
  getBucket (Fin <$> m_state_equity_pct r).

(** [df.merge({ left: s0, right: s1, on: ['REGN'], how: 'inner' })]. *)
Definition mergeInner (s0 s1 : list Weighted) : list (Weighted * Weighted) :=
  s0 ≫= (fun l => (fun r => (l, r)) <$> filter (fun r => m_REGN r = m_REGN l) s1).

(** [dropna()] on the merged rows: [w] and [raw] are the columns that can
    be missing. *)
Definition complete (p : Weighted * Weighted) : Prop :=
  is_Some (w_t (fst p)) /\ is_Some (w_raw (fst p)).

Global Instance complete_dec (p : Weighted * Weighted) : Decision (complete p).
Proof. unfold complete. apply _. Defined.

(** The rows of [s0] that the left merge marks [left_only]. *)
Definition leftOnly (s0 s1 : list Weighted) : list Weighted :=
  filter (fun l => m_REGN l ∉ m_REGN <$> s1) s0.

Definition activeRows (mergedSnap : list Weighted) (y0 y1 : Z) : list LinkRow :=
  let s0 := filter (fun r => m_year r = y0) mergedSnap in
  let s1 := filter (fun r => m_year r = y1) mergedSnap in
  let both := filter complete (mergeInner s0 s1) in
  (fun g => mkLinkRow (fst (fst g)) (snd (fst g))
              (osum ((fun p => w_t (fst p)) <$> snd g))
              (length (snd g))
              (osum ((fun p => w_raw (fst p)) <$> snd g))
              y0 y1 active)
    <$> groupby (fun p => (bucket (fst p), bucket (snd p))) both.

Definition exitRows (mergedSnap : list Weighted) (y0 y1 : Z) : list LinkRow :=
  let s0 := filter (fun r => m_year r = y0) mergedSnap in
  let s1 := filter (fun r => m_year r = y1) mergedSnap in
  let exits := leftOnly s0 s1 in
  (fun g => mkLinkRow (fst g) EXIT_LABEL
              (osum (w_t <$> snd g))
              (length (snd g))
              (osum (w_raw <$> snd g))
              y0 y0 exit)
    <$> groupby bucket exits.

(** One turn of the loop over the steps, then the whole loop. *)
Definition stepRows (mergedSnap : list Weighted) (y : Z * Z) : list LinkRow :=
  activeRows mergedSnap (fst y) (snd y) ++ exitRows mergedSnap (fst y) (snd y).

Definition buildLinkRows (mergedSnap : list Weighted) (YEARS : list Z) : list LinkRow :=
  steps YEARS ≫= stepRows mergedSnap.

(* ------------------------------------------------------------------ *)
(** ** Step 4: the nodes *)

(** [`${year}: ${cat}`]. *)
Definition nodeKey (y : Z) (cat : string) : string :=
  pretty y ++ ": " ++ cat.

Record NodeTable : Type := mkNodeTable {
  nt_nodes : list string;
  nt_node_id : gmap string nat;
  nt_node_colors : list string
}.

Definition addNode (y : Z) (st : NodeTable) (cat : string) : NodeTable :=
  let nodeIdKey := nodeKey y cat in
  match nt_node_id st !! nodeIdKey with
  | Some _ => st
  | None =>
      mkNodeTable (nt_nodes st ++ [nodeIdKey])
                  (<[nodeIdKey := length (nt_nodes st)]> (nt_node_id st))
                  (nt_node_colors st ++
                     [default "rgba(150,150,150,0.85)" (NODE_COLORS !! cat)])
  end.

Definition buildNodes (YEARS : list Z) : NodeTable :=
  foldl (fun st y => foldl (addNode y) st CAT_ORDER)
        (mkNodeTable [] ∅ []) YEARS.

(* ------------------------------------------------------------------ *)
(** ** Step 5: the links *)

Record SankeyLink : Type := mkSankeyLink {
  source : option nat;
  target : option nat;
  link_weight : option Q;
  value_abs : option Q;
  value_share : Q;
  color : string;
  customdata : list Q
}.

Record SankeyData : Type := mkSankeyData {
  nodes : list string;
  node_colors : list string;
  xs : list (option Q);
  ys : list (option Q);
  links : list SankeyLink;
  title : string
}.

Definition stepKey (l : LinkRow) : Z * Z := (level_from l, level_to l).

(** [groupby(['level_from', 'level_to'])['weight'].transform('sum')] at
    the row [l]. *)
Definition step_total (linkRows : list LinkRow) (l : LinkRow) : option Q :=
  osum (weight <$> filter (fun l' => stepKey l' = stepKey l) linkRows).

(** [stepTotalsArr[i] > 1e-9 ? (w / stepTotalsArr[i]) * 100 : 0]; a
    comparison with NaN is false. *)
Definition share (w total : option Q) : option Q :=
  match total with
  | Some t => if Qltb EPS_TOTAL t
              then (fun w => w / t * 100) <$> w
              else Some 0
  | None => Some 0
  end.

Definition divScale (v : option Q) : option Q :=
  (fun x => x / UNIT_SCALE) <$> v.

(** [value_share.values[i] || 0]. *)
Definition shareOf (linkRows : list LinkRow) (l : LinkRow) : Q :=
  orZero (share (weight l) (step_total linkRows l)).

Definition buildLink (node_id : gmap string nat) (linkRows : list LinkRow)
    (l : LinkRow) : SankeyLink :=
  let raw_abs := divScale (raw_sum l) in
  mkSankeyLink
    (node_id !! nodeKey (level_from l) (cat_from l))
    (node_id !! nodeKey (level_to l) (cat_to l))
    (weight l)
    (divScale (weight l))
    (shareOf linkRows l)
    (match flow_type l with active => GREEN | exit => RED end)
    [shareOf linkRows l; orZero raw_abs].

Definition buildLinks (node_id : gmap string nat) (linkRows : list LinkRow)
  : list SankeyLink :=
  buildLink node_id linkRows <$> linkRows.

(* ------------------------------------------------------------------ *)
(** ** Step 6: the layout *)

Definition LEFT_MARGIN : Q := 0.05.
Definition RIGHT_MARGIN : Q := 0.05.
Definition TOP_MARGIN : Q := 0.05.
Definition BOTTOM_MARGIN : Q := 0.05.
Definition TOTAL_Y_SPACE : Q := 1 - TOP_MARGIN - BOTTOM_MARGIN.
Definition EPS_EXIT : Q := 1 # 1000000.

(** [s.split(sep)] for a separator that is not empty. *)
Fixpoint split_go (sep : string) (skip : nat) (cur s : string) : list string :=
  match s with
  | EmptyString => [cur]
  | String c s' =>
      match skip with
      | S k => split_go sep k cur s'
      | O => if String.prefix sep s
             then cur :: split_go sep (String.length sep - 1) "" s'
             else split_go sep 0 (cur ++ String c "") s'
      end
  end.

Definition split (sep s : string) : list string := split_go sep 0 "" s.

(** [parseInt] on a sign and decimal digits; [None] is NaN. *)
Definition digitOf (c : ascii) : option Z :=
  let n := Z.of_nat (nat_of_ascii c) in
  if ((48 <=? n) && (n <=? 57))%Z then Some (n - 48)%Z else None.

Fixpoint parseDigits (acc : option Z) (s : string) : option Z :=
  match s with
  | EmptyString => acc
  | String c s' =>
      match digitOf c with
      | Some d => parseDigits (Some (10 * default 0%Z acc + d)%Z) s'
      | None => acc
      end
  end.

Definition parseInt (s : string) : option Z :=
  match s with
  | String "-" s' => Z.opp <$> parseDigits None s'
  | String "+" s' => parseDigits None s'
  | _ => parseDigits None s
  end.

(** [xpos]: the last index of a year wins. *)
Definition xposOf (YEARS : list Z) : gmap Z Q :=
  let dx := (1 - LEFT_MARGIN - RIGHT_MARGIN)
            / inject_Z (Z.of_nat (length YEARS - 1)) in
  foldl (fun acc yi =>
           <[fst yi := LEFT_MARGIN + inject_Z (Z.of_nat (snd yi)) * dx]> acc)
        ∅ (zip YEARS (seq 0 (length YEARS))).

Definition nodeX (xpos : gmap Z Q) (n : string) : option Q :=
  let parts := split ": " n in
  let isExit := match parts !! 1%nat with
                | Some cat => String.eqb cat EXIT_LABEL
                | None => false
                end in
  match parseInt (default "" (parts !! 0%nat)) ≫= (fun y => xpos !! y) with
  | Some x => Some (x + (if isExit then EPS_EXIT else 0))
  | None => None
  end.

(** [arr[i] += x]: inside the array the cell is added to; an index past
    the end extends the array with holes and stores NaN. *)
Definition bump (i : nat) (x : Q) (arr : list (option Q)) : list (option Q) :=
  if (i <? length arr)%nat
  then <[i := oadd (mjoin (arr !! i)) (Some x)]> arr
  else arr ++ replicate (i - length arr) None ++ [None].

Definition nodeWeightsOf (n : nat) (links : list SankeyLink) : list (option Q) :=
  foldl (fun acc l =>
           match source l, target l with
           | Some s, Some t =>
               bump t (orZero (link_weight l)) (bump s (orZero (link_weight l)) acc)
           | _, _ => acc
           end)
        (replicate n (Some 0)) links.

(** [CAT_ORDER.indexOf(cat)]. *)
Fixpoint indexOf (cat : option string) (l : list string) (i : Z) : Z :=
  match l with
  | [] => (-1)%Z
  | c :: l' => if bool_decide (cat = Some c) then i else indexOf cat l' (i + 1)%Z
  end.

Definition catIndex (nodes : list string) (a : nat) : Z :=
  indexOf (split ": " (default "" (nodes !! a)) !! 1%nat) CAT_ORDER 0.

(** The node indices of one year column, in category order. *)
Definition yearColumn (nodes : list string) (y : Z) : list nat :=
  let yearNodeIndices :=
    filter (fun i => String.prefix (pretty y ++ ":") (default "" (nodes !! i)))
           (seq 0 (length nodes)) in
  sortBy (fun a b => (catIndex nodes a <=? catIndex nodes b)%Z) yearNodeIndices.

Definition placeYear (nodes : list string) (nodeWeights ys : list (option Q))
    (y : Z) : list (option Q) :=
  let sortedYearNodeIndices := yearColumn nodes y in
  let totalColumnWeight :=
    foldl (fun sum i => oadd sum (mjoin (nodeWeights !! i)))
          (Some 0) sortedYearNodeIndices in
  let evenly :=
    let numNodes := length sortedYearNodeIndices in
    let step := TOTAL_Y_SPACE / inject_Z (Z.of_nat numNodes) in
    foldl (fun ys ni =>
             <[fst ni := Some (1 - (TOP_MARGIN
                                     + inject_Z (Z.of_nat (snd ni)) * step
                                     + step / 2))]> ys)
          ys (zip sortedYearNodeIndices (seq 0 numNodes)) in
  match totalColumnWeight with
  | Some total =>
      if Qltb EPS_TOTAL total then
        snd (foldl
               (fun st nodeIdx =>
                  let nodeHeight :=
                    (fun w => w / total * TOTAL_Y_SPACE)
                      <$> mjoin (nodeWeights !! nodeIdx) in
                  let centre := oadd (fst st) ((fun h => h / 2) <$> nodeHeight) in
                  (oadd (fst st) nodeHeight,
                   <[nodeIdx := (fun c => 1 - c) <$> centre]> (snd st)))
               (Some TOP_MARGIN, ys) sortedYearNodeIndices)
      else evenly
  | None => evenly
  end.

Definition layoutYs (YEARS : list Z) (nodes : list string)
    (nodeWeights : list (option Q)) : list (option Q) :=
  foldl (placeYear nodes nodeWeights)
        (replicate (length nodes) (Some 0.5)) YEARS.

Definition TITLE : string :=
  "Ownership buckets (step=" ++ pretty STEP_YEARS ++ "y) — Weight = "
  ++ pretty MA_MONTHS ++ "M MA of total_deposits".

(* ------------------------------------------------------------------ *)
(** ** processParquetData *)

Definition ERR_STEPS : string :=
  "Not enough annual steps to build a time-sankey.".
Definition ERR_FLOWS : string :=
  "No flows computed. Check data availability across 4-year steps.".
Definition errColumn (c : string) : string :=
  "Expected column '" ++ c ++ "' not found in data".

(** Steps 3 to 6, from [mergedSnap] on. *)
Definition buildSankey (mergedSnap : list Weighted) : string + SankeyData :=
  let YEARS := yearGrid mergedSnap in
  if (length YEARS <? 2)%nat then inl ERR_STEPS
  else
    let linkRows := buildLinkRows mergedSnap YEARS in
    match linkRows with
    | [] => inl ERR_FLOWS
    | _ =>
        let nt := buildNodes YEARS in
        let links := buildLinks (nt_node_id nt) linkRows in
        let xpos := xposOf YEARS in
        let xs := nodeX xpos <$> nt_nodes nt in
        let nodeWeights := nodeWeightsOf (length (nt_nodes nt)) links in
        let ys := layoutYs YEARS (nt_nodes nt) nodeWeights in
        inr (mkSankeyData (nt_nodes nt) (nt_node_colors nt) xs ys links TITLE)
    end.

Definition REQUIRED_COLUMNS : list string :=
  ["DT"; "REGN"; "total_deposits"; "state_equity_pct"].

(** [DF.columns]: a frame built from no rows has no columns. *)
Definition dfColumns (table : Table) : list string :=
  match rows table with
  | [] => []
  | _ => columns table
  end.

Definition missingColumn (table : Table) : option string :=
  find (fun c => bool_decide (c ∉ dfColumns table)) REQUIRED_COLUMNS.

Section Pipeline.
Variable ln : Q -> Q.

(** Steps 1 and 2: the table [mergedSnap]. *)
Definition prepare (table : Table) : list Weighted :=
  mergedSnapOf ln (addIndicatorMa (standardizeDF (rows table))).

(** The pipeline as it is written, its frame calls read as those of
    pandas: the message of one of its three [throw] statements, or the
    graph.  The errors the library raises are the matter of
    [Danfojs.processParquetData]. *)
Definition processParquetData (table : Table) : string + SankeyData :=
  match missingColumn table with
  | Some c => inl (errColumn c)
  | None => buildSankey (prepare table)
  end.
End Pipeline.

(* ------------------------------------------------------------------ *)
(** ** The run under danfojs *)

(** Line 150 of the source, the first statement after the column check,
    is [DF['DT'] = df.toDateTime(DF['DT'])].  In danfojs [toDateTime]
    returns a [TimeSeries], the accessor of the parts of a date, and the
    setter of a column of a [DataFrame] stores an [Array] or a [Series]
    of the length of the frame and throws for every other value.  The
    library is not part of the repository: the texts of its two errors
    are parameters. *)
Module Danfojs.

(** What a run throws: an [Error] made by the source (lines 147, 221 and
    271) or one made by the library.  Both are instances of [Error]. *)
Inductive Failure : Type :=
| SourceError (message : string)
| LibraryError (message : string).

Definition messageOf (e : Failure) : string :=
  match e with
  | SourceError m => m
  | LibraryError m => m
  end.

(** The values line 150 could assign to the column. *)
Inductive Assigned : Type :=
| AnArray (values : list date)
| ASeries (values : list date)
| ATimeSeries (values : list date).

(** [df.toDateTime(series)]. *)
Definition toDateTime (series : list date) : Assigned := ATimeSeries series.

Section Library.
(** The messages of the setter: for a value that is neither an [Array]
    nor a [Series], and for one of another length than the frame. *)
Variables (paramError lengthError : string).

(** [DF['DT'] = arr]. *)
Definition setDT (DF : Table) (arr : Assigned) : Failure + Table :=
  let store (values : list date) :=
    if decide (length values = length (rows DF))
    then inr (mkTable (columns DF)
                (zip_with (fun r d => mkRow d (REGN r) (total_deposits r)
                                        (state_equity_pct r) (indicator_ma r))
                          (rows DF) values))
    else inl (LibraryError lengthError) in
  match arr with
  | AnArray values => store values
  | ASeries values => store values
  | ATimeSeries _ => inl (LibraryError paramError)
  end.

(** Lines 151 to 382, whatever they do with the frame. *)
Variable rest : Table -> Failure + SankeyData.

(** [processParquetData] on the decoded table: the column check, then
    line 150, then the rest. *)
Definition processParquetData (table : Table) : Failure + SankeyData :=
  match missingColumn table with
  | Some c => inl (SourceError (errColumn c))
  | None =>
      match setDT table (toDateTime (DT <$> rows table)) with
      | inl e => inl e
      | inr DF => rest DF
      end
  end.
End Library.

End Danfojs.

(* ------------------------------------------------------------------ *)
(** ** Notions used by the statements *)

Global Instance Col_eq_dec : EqDecision Col.
Proof. solve_decision. Defined.

Global Instance FlowType_eq_dec : EqDecision FlowType.
Proof. solve_decision. Defined.

(** *** Flows *)

(** The entities of bucket [cat] that are in the snapshot of [y0] and
    not in the snapshot of [y1]. *)
Definition gone (mergedSnap : list Weighted) (y0 y1 : Z) (cat : string)
  : list Weighted :=
  filter (fun r => bucket r = cat)
         (leftOnly (filter (fun r => m_year r = y0) mergedSnap)
                   (filter (fun r => m_year r = y1) mergedSnap)).

Definition weighed (r : Weighted) : Prop :=
  is_Some (w_t r) /\ is_Some (w_raw r).

Global Instance weighed_dec (r : Weighted) : Decision (weighed r).
Proof. unfold weighed. apply _. Defined.

(** *** Nodes *)

(** Every pair of a grid year and a category, in the order of the two
    loops of step 4, and the keys of these pairs. *)
Definition allPairs (YEARS : list Z) : list (Z * string) :=
  YEARS ≫= (fun y => pair y <$> CAT_ORDER).

Definition allKeys (YEARS : list Z) : list string :=
  (fun p => nodeKey (fst p) (snd p)) <$> allPairs YEARS.

(** What holds of the node table after any number of registrations:
    the ids are the positions in [nodes], and the colours run along. *)
Record nodeTableOk (st : NodeTable) (keys : list string) : Prop := {
  ok_nodes : nt_nodes st = uniq keys;
  ok_ids : forall k i, nt_node_id st !! k = Some i <-> nt_nodes st !! i = Some k;
  ok_colors : length (nt_node_colors st) = length (nt_nodes st)
}.

(* ------------------------------------------------------------------ *)
(** ** Example tables *)

(** Three entities on the grid 2020, 2024: entity 1 is in the top bucket
    in both years, entity 2 is in the zero bucket in 2020 and gone in
    2024, entity 3 has no percentage in either year. *)
Definition scenario : list Weighted :=
  [ mkWeighted 1 2020 (Some 60) (Some 5) (Some 5) (Some 5);
    mkWeighted 1 2024 (Some 70) (Some 6) (Some 6) (Some 6);
    mkWeighted 2 2020 (Some 0) (Some 3) (Some 3) (Some 3);
    mkWeighted 3 2020 None (Some 2) (Some 2) (Some 2);
    mkWeighted 3 2024 None (Some 2) (Some 2) (Some 2) ].

(** A rational stand-in for [Math.log], used only to run the pipeline on
    the example tables: the first term of the series
    ln q = 2 * sum_k ((q - 1) / (q + 1))^(2k+1) / (2k+1). *)
Definition lnApprox (q : Q) : Q := 2 * (q - 1) / (q + 1).

(** Input tables.  Entity 7 is observed in January 2020 (with its
    percentage), in June 2020 (percentage missing) and in March 2024. *)
Definition rows_ok : list Row :=
  [ mkRow (mkDate 2020 1) 7 (Some 10) (Some 60) None;
    mkRow (mkDate 2020 6) 7 (Some 14) None None;
    mkRow (mkDate 2024 3) 7 (Some 20) (Some 55) None ].

Definition table_ok : Table := mkTable REQUIRED_COLUMNS rows_ok.

(** The same rows without the column of entity ids. *)
Definition table_no_REGN : Table :=
  mkTable ["DT"; "total_deposits"; "state_equity_pct"] rows_ok.

(** All observations in one year: the grid has one year. *)
Definition table_one_year : Table :=
  mkTable REQUIRED_COLUMNS
    [ mkRow (mkDate 2020 1) 7 (Some 10) (Some 60) None;
      mkRow (mkDate 2020 6) 7 (Some 14) None None ].

(** No volume at all: every weight is missing, [dropna] removes every
    active row and no entity leaves. *)
Definition table_no_volume : Table :=
  mkTable REQUIRED_COLUMNS
    [ mkRow (mkDate 2020 1) 7 None (Some 60) None;
      mkRow (mkDate 2024 3) 7 None (Some 55) None ].





(** The three entities of [scenario] as input rows: entity 1 is observed
    in 2020 and 2024, entity 2 in 2020 only, entity 3 in both years
    without a percentage. *)
Definition table_scenario : Table :=
  mkTable REQUIRED_COLUMNS
    [ mkRow (mkDate 2020 12) 1 (Some 10) (Some 60) None;
      mkRow (mkDate 2024 12) 1 (Some 20) (Some 70) None;
      mkRow (mkDate 2020 12) 2 (Some 5) (Some 0) None;
      mkRow (mkDate 2020 12) 3 (Some 3) None None;
      mkRow (mkDate 2024 12) 3 (Some 3) None None ].

(* ------------------------------------------------------------------ *)
(** ** The page: [App] and [SankeyChart] *)

Module Page.

(** *** [App] *)

(** The three [useState] cells of [App]. *)
Record AppState : Type := mkAppState {
  chartData : option SankeyData;
  isLoading : bool;
  error : option string
}.

Definition App_initial : AppState := mkAppState None false None.

(** What the [catch] block receives: an [Error] with its message, or a
    value that is not an [Error]. *)
Inductive Thrown : Type :=
| ErrorWith (message : string)
| NotAnError.

(** The text the [catch] block passes to [setError]. *)
Definition errorText (err : Thrown) : string :=
  let message :=
    match err with
    | ErrorWith m => m
    | NotAnError => "An unknown error occurred during data processing."
    end in
  "Failed to process file: " +:+ message
  +:+ ". Please ensure it is the correct Parquet file and format.".

(** A chosen file: reading and decoding it ([file.arrayBuffer()],
    [tableFromIPC]) throws, or gives the table the pipeline works on. *)
Inductive File : Type :=
| Unreadable (err : Thrown)
| Readable (table : Table).

Section Upload.
Variables (paramError lengthError : string).
Variable rest : Table -> Danfojs.Failure + SankeyData.

(** The [try] block: the chart data, or what was thrown.  An error of
    the pipeline is an [Error] and comes with its message. *)
Definition awaited (file : File) : Thrown + SankeyData :=
  match file with
  | Unreadable err => inl err
  | Readable table =>
      match Danfojs.processParquetData paramError lengthError rest table with
      | inl e => inl (ErrorWith (Danfojs.messageOf e))
      | inr data => inr data
      end
  end.

(** [handleFileUpload]: the states it leaves behind, in order.  None when
    no file was chosen; else the state set before the first [await] and
    the state after the [finally] block.  The three cells are all
    overwritten, so the state before the call is not read. *)
Definition handleFileUpload (file : option File) : list AppState :=
  match file with
  | None => []
  | Some f =>
      let loading := mkAppState None true None in
      let settled :=
        match awaited f with
        | inr data => mkAppState (Some data) true None
        | inl err => mkAppState None true (Some (errorText err))
        end in
      [loading; mkAppState (chartData settled) false (error settled)]
  end.
End Upload.

(** What [App] puts on the page. *)
Inductive Panel : Type :=
| UploadPanel
| LoadingPanel
| ErrorPanel (text : string)
| ChartPanel (data : SankeyData).

(** Truthiness of a [string | null]: [null] and the empty string are
    falsy. *)
Definition truthyText (e : option string) : bool :=
  match e with
  | Some (String _ _) => true
  | _ => false
  end.

(** The four conditional blocks of the JSX of [App]. *)
Definition App_view (s : AppState) : list Panel :=
  (if negb (bool_decide (is_Some (chartData s))) && negb (isLoading s)
      && negb (truthyText (error s))
   then [UploadPanel] else [])
  ++ (if isLoading s then [LoadingPanel] else [])
  ++ (match error s with
      | Some e => if truthyText (Some e) then [ErrorPanel e] else []
      | None => []
      end)
  ++ (match chartData s with
      | Some data => [ChartPanel data]
      | None => []
      end).

(** The states of a session: [App] is mounted, and a file can be chosen
    when, and only when, the upload block with its input is on the
    page. *)
Inductive App_reachable (paramError lengthError : string)
    (rest : Table -> Danfojs.Failure + SankeyData) : AppState -> Prop :=
| App_mounted : App_reachable paramError lengthError rest App_initial
| App_uploaded (s : AppState) (file : option File) (s' : AppState) :
    App_reachable paramError lengthError rest s ->
    UploadPanel ∈ App_view s ->
    s' ∈ handleFileUpload paramError lengthError rest file ->
    App_reachable paramError lengthError rest s'.

(** *** [SankeyChart] *)

(** ['abs' | 'share'] and ['fixed' | 'freeform']. *)
Inductive Thickness : Type := abs | share.
Inductive Arrangement : Type := fixed | freeform.

(** The four [useState] cells of [SankeyChart].  [nodeY] can receive
    [undefined] from a restyle event. *)
Record ChartState : Type := mkChartState {
  thicknessMode : Thickness;
  layoutMode : Arrangement;
  nodeX : list (option Q);
  nodeY : option (list (option Q))
}.

(** The payload of a [plotly_restyle] event, as far as the listener
    reads it: the entry ['node.y'], if there is one. *)
Record Restyle : Type := mkRestyle {
  restyle_node_y : option (list (list (option Q)))
}.

(** What can happen to a mounted chart: the five buttons and the
    listener. *)
Inductive ChartEvent : Type :=
| setThicknessMode (m : Thickness)
| setLayoutMode (m : Arrangement)
| resetPositions
| restyleListener (eventData : option Restyle).

(** The state at mount; [NODE_X_DEFAULT] and [NODE_Y_DEFAULT] are
    [xs data] and [ys data] from then on. *)
Definition SankeyChart_mount (data : SankeyData) : ChartState :=
  mkChartState abs fixed (xs data) (Some (ys data)).

Definition SankeyChart_on (data : SankeyData) (s : ChartState)
    (e : ChartEvent) : ChartState :=
  match e with
  | setThicknessMode m => mkChartState m (layoutMode s) (nodeX s) (nodeY s)
  | setLayoutMode m => mkChartState (thicknessMode s) m (nodeX s) (nodeY s)
  | resetPositions =>
      mkChartState (thicknessMode s) fixed (xs data) (Some (ys data))
  | restyleListener eventData =>
      match layoutMode s, eventData with
      | freeform, Some d =>
          match restyle_node_y d with
          | Some node_y =>
              let newY := head node_y in
              mkChartState (thicknessMode s) (layoutMode s) (xs data) newY
          | None => s
          end
      | _, _ => s
      end
  end.

(** The trace handed to [Plotly.react]. *)
Record SankeyTrace : Type := mkSankeyTrace {
  trace_arrangement : Arrangement;
  trace_label : list string;
  trace_node_color : list string;
  trace_x : list (option Q);
  trace_y : option (list (option Q));
  trace_source : list (option nat);
  trace_target : list (option nat);
  trace_value : list (option Q);
  trace_link_color : list string;
  trace_customdata : list (list Q)
}.

Definition SankeyChart_trace (data : SankeyData) (s : ChartState) : SankeyTrace :=
  let values :=
    (fun l => match thicknessMode s with
              | abs => value_abs l
              | share => Some (value_share l)
              end) <$> links data in
  mkSankeyTrace (layoutMode s) (nodes data) (node_colors data)
    (nodeX s) (nodeY s)
    (source <$> links data) (target <$> links data) values
    (color <$> links data) (customdata <$> links data).

End Page.

(* ================================================================== *)
(** * Properties *)

(* ------------------------------------------------------------------ *)
(** ** Comparisons *)

Lemma Qltb_lt a b : Qltb a b = true <-> a < b.
Proof.
  unfold Qltb. rewrite negb_true_iff. split; intros H.
  - apply Qnot_le_lt. intros Hle. apply Qle_bool_iff in Hle. congruence.
  - destruct (Qle_bool b a) eqn:E; [|reflexivity].
    apply Qle_bool_iff in E. exfalso. apply (Qlt_not_le _ _ H E).
Qed.

Lemma Qltb_ge a b : Qltb a b = false <-> b <= a.
Proof.
  unfold Qltb. rewrite negb_false_iff. apply Qle_bool_iff.
Qed.



(* ------------------------------------------------------------------ *)
(** ** getBucket *)

(** *** The edges of the buckets, as doubles *)








Example getBucket_0 : getBucket (Some (Fin 0)) = "State 0%".
Proof. vm_compute. reflexivity. Qed.

Example getBucket_150 : getBucket (Some (Fin 150)) = UNKNOWN_LABEL.
Proof. vm_compute. reflexivity. Qed.

(** The search through [OWN_BUCKETS] written out: the zero bucket is
    skipped by its name test, the others are tried from the top. *)
Lemma getBucket_Fin (q : Q) :
  getBucket (Some (Fin q)) =
    if Qltb (Qabs q) EPS_BUCKET then "State 0%"
    else if Qltb (lowEdge 50) q && Qltb q (highEdge (fl 100.1)) then "State ≥50%"
    else if Qltb (lowEdge 20) q && Qltb q (highEdge 50) then "State 20–50%"
    else if Qltb (lowEdge 10) q && Qltb q (highEdge 20) then "State 10–20%"
    else if Qltb (lowEdge 0) q && Qltb q (highEdge 10) then "State 0–10%"
    else UNKNOWN_LABEL.
Proof.
  unfold getBucket. destruct (Qltb (Qabs q) EPS_BUCKET); [reflexivity|].
  cbn [find OWN_BUCKETS]. unfold inBucket. cbn [lo hi name].
  repeat match goal with
  | |- context [negb (String.eqb ?a ?b)] =>
      let v := eval vm_compute in (negb (String.eqb a b)) in
      change (negb (String.eqb a b)) with v
  end.
  cbn [andb].
  repeat match goal with
  | |- context [if ?c then _ else _] => destruct c; try reflexivity
  end.
Qed.








(** The labels [getBucket] can return: every category but [Exit]. *)
Lemma getBucket_label (p : option number) :
  getBucket p ∈ (name <$> OWN_BUCKETS) ++ [UNKNOWN_LABEL].
Proof.
  apply list_elem_of_In.
  destruct p as [[q| | |]|]; try (cbn; tauto).
  rewrite getBucket_Fin.
  repeat match goal with
  | |- context [if ?c then _ else _] => destruct c
  end; cbn; tauto.
Qed.




(* ------------------------------------------------------------------ *)
(** ** Keys and groups *)

Section KeyFacts.
Context {K : Type} `{EqDecision K}.

Lemma uniq_elem_of (l : list K) (k : K) : k ∈ uniq l <-> k ∈ l.
Proof.
  induction l as [|a l IH]; cbn; [reflexivity|].
  rewrite !elem_of_cons, list_elem_of_filter, IH.
  destruct (decide (k = a)) as [->|Hne]; tauto.
Qed.

Lemma uniq_NoDup (l : list K) : NoDup (uniq l).
Proof.
  induction l as [|a l IH]; cbn; constructor.
  - rewrite list_elem_of_filter. intros [Hne _]. now apply Hne.
  - apply NoDup_filter, IH.
Qed.

Context {A : Type} (key : A -> K).

Lemma groupby_elem_of (l : list A) (g : K * list A) :
  g ∈ groupby key l <->
  fst g ∈ key <$> l /\ snd g = filter (fun x => key x = fst g) l.
Proof.
  unfold groupby. rewrite list_elem_of_fmap. split.
  - intros (k & -> & Hk). rewrite uniq_elem_of in Hk. cbn. auto.
  - intros [Hk Hg]. exists (fst g). rewrite uniq_elem_of. split; [|exact Hk].
    destruct g; cbn in *; congruence.
Qed.

Lemma groupby_nonempty (l : list A) (g : K * list A) :
  g ∈ groupby key l -> snd g <> [].
Proof.
  intros Hg. apply groupby_elem_of in Hg as [Hk Hs].
  apply list_elem_of_fmap in Hk as (x & Hx & Hin).
  assert (Hx' : x ∈ snd g).
  { rewrite Hs. apply list_elem_of_filter. auto. }
  intros E. rewrite E in Hx'. inversion Hx'.
Qed.

Lemma groupby_keys (l : list A) : fst <$> groupby key l = uniq (key <$> l).
Proof.
  unfold groupby. rewrite <- list_fmap_compose. apply list_fmap_id.
Qed.
End KeyFacts.

(* ------------------------------------------------------------------ *)
(** ** The rows of the flow table *)

Lemma elem_of_activeRows mergedSnap y0 y1 l :
  l ∈ activeRows mergedSnap y0 y1 ->
  flow_type l = active /\ level_from l = y0 /\ level_to l = y1.
Proof.
  unfold activeRows. intros Hl.
  apply list_elem_of_fmap in Hl as (g & -> & _). auto.
Qed.

Lemma elem_of_exitRows mergedSnap y0 y1 l :
  l ∈ exitRows mergedSnap y0 y1 ->
  flow_type l = exit /\ level_from l = y0 /\ level_to l = y0
  /\ cat_to l = EXIT_LABEL
  /\ gone mergedSnap y0 y1 (cat_from l) <> []
  /\ count l = length (gone mergedSnap y0 y1 (cat_from l))
  /\ weight l = osum (w_t <$> gone mergedSnap y0 y1 (cat_from l))
  /\ raw_sum l = osum (w_raw <$> gone mergedSnap y0 y1 (cat_from l)).
Proof.
  unfold exitRows. intros Hl.
  apply list_elem_of_fmap in Hl as (g & -> & Hg). cbn.
  pose proof (groupby_nonempty _ _ _ Hg) as Hne.
  apply groupby_elem_of in Hg as [_ Hs].
  unfold gone. rewrite <- Hs. auto 10.
Qed.

Lemma elem_of_buildLinkRows mergedSnap YEARS l :
  l ∈ buildLinkRows mergedSnap YEARS <->
  exists y, y ∈ steps YEARS
            /\ (l ∈ activeRows mergedSnap (fst y) (snd y)
                \/ l ∈ exitRows mergedSnap (fst y) (snd y)).
Proof.
  unfold buildLinkRows. rewrite list_elem_of_bind.
  split; intros (y & H1 & H2); exists y.
  - unfold stepRows in H1. apply elem_of_app in H1. auto.
  - unfold stepRows. rewrite elem_of_app. auto.
Qed.

(** The steps are the pairs of neighbours of the grid. *)
Lemma steps_lookup (YEARS : list Z) (y0 y1 : Z) :
  (y0, y1) ∈ steps YEARS <->
  exists i : nat, YEARS !! i = Some y0 /\ YEARS !! S i = Some y1.
Proof.
  unfold steps, zip. rewrite list_elem_of_lookup.
  split; intros (i & Hi); exists i.
  - apply lookup_zip_with_Some in Hi as (a & b & E & Ha & Hb).
    rewrite lookup_tail in Hb. inversion E; subst. auto.
  - destruct Hi as [Ha Hb]. apply lookup_zip_with_Some.
    exists y0, y1. rewrite lookup_tail. auto.
Qed.

(* ------------------------------------------------------------------ *)
(** ** The node table *)

Lemma uniq_snoc {K : Type} `{EqDecision K} (l : list K) (k : K) :
  uniq (l ++ [k]) = uniq l ++ (if decide (k ∈ l) then [] else [k]).
Proof.
  induction l as [|a l IH]; cbn.
  - rewrite decide_False by (intros H'; inversion H'). reflexivity.
  - rewrite IH, filter_app. f_equal. f_equal.
    destruct (decide (k ∈ l)) as [Hin|Hnin].
    + rewrite decide_True by (right; exact Hin). reflexivity.
    + destruct (decide (k = a)) as [->|Hne].
      * rewrite decide_True by left. cbn.
        rewrite decide_False by (intros Hc; now apply Hc). reflexivity.
      * rewrite decide_False by (rewrite elem_of_cons; tauto).
        cbn. rewrite decide_True by exact Hne. reflexivity.
Qed.

Lemma nodeTableOk_empty : nodeTableOk (mkNodeTable [] ∅ []) [].
Proof.
  split; cbn; [reflexivity| |reflexivity].
  intros k i. rewrite lookup_empty, lookup_nil. split; discriminate.
Qed.

Lemma addNode_ok st keys y cat :
  nodeTableOk st keys ->
  nodeTableOk (addNode y st cat) (keys ++ [nodeKey y cat]).
Proof.
  intros [Hn Hi Hc]. unfold addNode.
  assert (Hnd : NoDup (nt_nodes st)) by (rewrite Hn; apply uniq_NoDup).
  destruct (nt_node_id st !! nodeKey y cat) as [i|] eqn:E.
  - apply Hi in E. apply list_elem_of_lookup_2 in E.
    rewrite Hn, uniq_elem_of in E.
    split; [|exact Hi|exact Hc].
    rewrite uniq_snoc, decide_True by exact E. rewrite app_nil_r. exact Hn.
  - assert (Hnin : nodeKey y cat ∉ keys).
    { intros Hin. rewrite <- uniq_elem_of, <- Hn in Hin.
      apply list_elem_of_lookup_1 in Hin as [i Hi'].
      apply Hi in Hi'. congruence. }
    split; cbn.
    + rewrite uniq_snoc, decide_False by exact Hnin. rewrite Hn. reflexivity.
    + intros k i. destruct (decide (k = nodeKey y cat)) as [->|Hne].
      * rewrite lookup_insert_eq. split.
        -- intros [= <-]. rewrite lookup_app_r by lia.
           rewrite Nat.sub_diag. reflexivity.
        -- intros Hl. f_equal.
           destruct (decide (i < length (nt_nodes st))%nat) as [Hlt|Hge].
           ++ rewrite lookup_app_l in Hl by exact Hlt.
              apply list_elem_of_lookup_2 in Hl.
              rewrite Hn, uniq_elem_of in Hl. contradiction.
           ++ apply lookup_lt_Some in Hl. rewrite length_app in Hl.
              cbn in Hl. lia.
      * rewrite lookup_insert_ne by congruence. rewrite Hi. split.
        -- intros Hl. rewrite lookup_app_l; [exact Hl|].
           apply lookup_lt_Some in Hl. exact Hl.
        -- intros Hl.
           destruct (decide (i < length (nt_nodes st))%nat) as [Hlt|Hge].
           ++ rewrite lookup_app_l in Hl by exact Hlt. exact Hl.
           ++ rewrite lookup_app_r in Hl by lia.
              destruct (i - length (nt_nodes st))%nat; cbn in Hl;
                [congruence | discriminate].
    + rewrite !length_app. cbn. lia.
Qed.

Lemma buildNodes_flat (YEARS : list Z) :
  buildNodes YEARS =
    foldl (fun st p => addNode (fst p) st (snd p)) (mkNodeTable [] ∅ [])
          (allPairs YEARS).
Proof.
  unfold buildNodes, allPairs.
  generalize (mkNodeTable [] ∅ []).
  induction YEARS as [|y YEARS IH]; intros st; [reflexivity|].
  cbn [foldl]. rewrite IH. change (y :: YEARS) with ([y] ++ YEARS).
  rewrite bind_app, foldl_app. f_equal.
Qed.

Lemma buildNodes_ok (YEARS : list Z) :
  nodeTableOk (buildNodes YEARS) (allKeys YEARS).
Proof.
  rewrite buildNodes_flat. unfold allKeys.
  induction (allPairs YEARS) as [|p ps IH] using rev_ind.
  - apply nodeTableOk_empty.
  - rewrite foldl_app, fmap_app. cbn. apply addNode_ok, IH.
Qed.

(** The node list holds the key of every pair of a grid year and a
    category, and nothing else. *)
Lemma buildNodes_elem_of (YEARS : list Z) (k : string) :
  k ∈ nt_nodes (buildNodes YEARS) <->
  exists y cat, y ∈ YEARS /\ cat ∈ CAT_ORDER /\ k = nodeKey y cat.
Proof.
  rewrite (ok_nodes _ _ (buildNodes_ok YEARS)), uniq_elem_of.
  unfold allKeys, allPairs. rewrite list_elem_of_fmap. split.
  - intros ([y cat] & -> & Hp). apply list_elem_of_bind in Hp as (y' & Hc & Hy).
    apply list_elem_of_fmap in Hc as (c & [= -> ->] & Hc). eauto.
  - intros (y & cat & Hy & Hc & ->). exists (y, cat). split; [reflexivity|].
    apply list_elem_of_bind. exists y. split; [|exact Hy].
    apply list_elem_of_fmap. eauto.
Qed.

(** A registered key has an id, and the id is its position. *)
Lemma buildNodes_lookup (YEARS : list Z) (y : Z) (cat : string) :
  y ∈ YEARS -> cat ∈ CAT_ORDER ->
  exists i, nt_node_id (buildNodes YEARS) !! nodeKey y cat = Some i
            /\ nt_nodes (buildNodes YEARS) !! i = Some (nodeKey y cat)
            /\ (i < length (nt_nodes (buildNodes YEARS)))%nat.
Proof.
  intros Hy Hc.
  assert (Hin : nodeKey y cat ∈ nt_nodes (buildNodes YEARS)).
  { apply buildNodes_elem_of. eauto. }
  apply list_elem_of_lookup_1 in Hin as [i Hi]. exists i.
  split; [|split; [exact Hi | exact (lookup_lt_Some _ _ _ Hi)]].
  apply (ok_ids _ _ (buildNodes_ok YEARS)). exact Hi.
Qed.

(* ------------------------------------------------------------------ *)
(** ** The links point into the node list *)

Lemma bucket_in_CAT_ORDER (r : Weighted) : bucket r ∈ CAT_ORDER.
Proof.
  unfold bucket, CAT_ORDER.
  pose proof (getBucket_label (Fin <$> m_state_equity_pct r)) as H.
  rewrite elem_of_app in H. rewrite elem_of_app.
  destruct H as [H|H]; [left; exact H|right].
  apply list_elem_of_singleton in H. rewrite H. left.
Qed.

Lemma EXIT_in_CAT_ORDER : EXIT_LABEL ∈ CAT_ORDER.
Proof. apply list_elem_of_In. cbn. tauto. Qed.

Lemma steps_elem_of (YEARS : list Z) (y : Z * Z) :
  y ∈ steps YEARS -> fst y ∈ YEARS /\ snd y ∈ YEARS.
Proof.
  destruct y as [y0 y1]. intros H.
  apply steps_lookup in H as (i & H0 & H1).
  split; eapply list_elem_of_lookup_2; eassumption.
Qed.

Lemma linkRow_endpoints mergedSnap YEARS l :
  l ∈ buildLinkRows mergedSnap YEARS ->
  level_from l ∈ YEARS /\ level_to l ∈ YEARS
  /\ cat_from l ∈ CAT_ORDER /\ cat_to l ∈ CAT_ORDER.
Proof.
  intros Hl. apply elem_of_buildLinkRows in Hl as (y & Hy & [Hl | Hl]);
    apply steps_elem_of in Hy as [Hy0 Hy1].
  - unfold activeRows in Hl.
    apply list_elem_of_fmap in Hl as (g & -> & Hg). cbn.
    apply groupby_elem_of in Hg as [Hk _].
    apply list_elem_of_fmap in Hk as (p & -> & _). cbn.
    auto using bucket_in_CAT_ORDER.
  - unfold exitRows in Hl.
    apply list_elem_of_fmap in Hl as (g & -> & Hg). cbn.
    apply groupby_elem_of in Hg as [Hk _].
    apply list_elem_of_fmap in Hk as (r & -> & _).
    auto using bucket_in_CAT_ORDER, EXIT_in_CAT_ORDER.
Qed.

Lemma foldl_insert_length {A B : Type} (f : B -> nat) (v : B -> list A -> A)
    (l : list B) (ys : list A) :
  length (foldl (fun ys b => <[f b := v b ys]> ys) ys l) = length ys.
Proof.
  revert ys. induction l as [|b l IH]; intros ys; cbn; [reflexivity|].
  rewrite IH. apply length_insert.
Qed.

Lemma placeYear_length nodes nodeWeights ys y :
  length (placeYear nodes nodeWeights ys y) = length ys.
Proof.
  unfold placeYear.
  set (idx := yearColumn nodes y).
  assert (Heven : forall step,
    length (foldl (fun ys ni =>
                     <[fst ni := Some (1 - (TOP_MARGIN
                                             + inject_Z (Z.of_nat (snd ni)) * step
                                             + step / 2))]> ys)
                  ys (zip idx (seq 0 (length idx)))) = length ys).
  { intros step.
    apply (foldl_insert_length fst
             (fun ni _ => Some (1 - (TOP_MARGIN
                                      + inject_Z (Z.of_nat (snd ni)) * step
                                      + step / 2)))). }
  destruct (foldl _ (Some 0) idx) as [total|]; [|apply Heven].
  destruct (Qltb EPS_TOTAL total); [|apply Heven].
  clear Heven. generalize (Some TOP_MARGIN). revert ys.
  induction idx as [|i idx IH]; intros ys cur; cbn; [reflexivity|].
  rewrite IH. cbn. apply length_insert.
Qed.

Lemma layoutYs_length YEARS nodes nodeWeights :
  length (layoutYs YEARS nodes nodeWeights) = length nodes.
Proof.
  unfold layoutYs.
  rewrite <- (length_replicate (length nodes) (Some 0.5)) at 2.
  generalize (replicate (length nodes) (Some 0.5)).
  induction YEARS as [|y YEARS IH]; intros ys; cbn; [reflexivity|].
  rewrite IH. apply placeYear_length.
Qed.

(** What a successful run of steps 3 to 6 returns. *)
Lemma buildSankey_inr (mergedSnap : list Weighted) (g : SankeyData) :
  buildSankey mergedSnap = inr g ->
  let YEARS := yearGrid mergedSnap in
  let linkRows := buildLinkRows mergedSnap YEARS in
  let nt := buildNodes YEARS in
  (2 <= length YEARS)%nat /\ linkRows <> []
  /\ nodes g = nt_nodes nt
  /\ node_colors g = nt_node_colors nt
  /\ xs g = (nodeX (xposOf YEARS) <$> nt_nodes nt)
  /\ links g = buildLinks (nt_node_id nt) linkRows
  /\ ys g = layoutYs YEARS (nt_nodes nt)
              (nodeWeightsOf (length (nt_nodes nt)) (links g)).
Proof.
  unfold buildSankey. intros H.
  destruct (length (yearGrid mergedSnap) <? 2)%nat eqn:E; [discriminate H|].
  apply Nat.ltb_ge in E.
  destruct (buildLinkRows mergedSnap (yearGrid mergedSnap)) as [|l0 ls] eqn:El;
    [discriminate H|].
  injection H as <-. cbn. repeat split; try reflexivity; [exact E|discriminate].
Qed.

(** C10: in the graph of every run that succeeds, the source and the
    target of every link are defined numbers below the length of the node
    list, and the lists of colours, x and y coordinates have that same
    length: the links index the four parallel arrays.  The statement is
    about steps 3 to 6 on any table [mergedSnap]; a run of the pipeline
    succeeds exactly when they succeed on the table it prepared. *)
Theorem link_indices_in_range (mergedSnap : list Weighted) (g : SankeyData)
    (l : SankeyLink) :
  buildSankey mergedSnap = inr g ->
  l ∈ links g ->
  (exists s t : nat,
      source l = Some s /\ target l = Some t
      /\ (s < length (nodes g))%nat /\ (t < length (nodes g))%nat)
  /\ length (node_colors g) = length (nodes g)
  /\ length (xs g) = length (nodes g)
  /\ length (ys g) = length (nodes g).
Proof.
  intros Hrun Hl.
  apply buildSankey_inr in Hrun as (_ & _ & Hn & Hc & Hx & Hls & Hy).
  split.
  - rewrite Hls in Hl. unfold buildLinks in Hl.
    apply list_elem_of_fmap in Hl as (row & -> & Hrow).
    apply linkRow_endpoints in Hrow as (Hf & Ht & Hcf & Hct).
    destruct (buildNodes_lookup _ _ _ Hf Hcf) as (s & Hs & _ & Hslt).
    destruct (buildNodes_lookup _ _ _ Ht Hct) as (t & Htt & _ & Htlt).
    exists s, t. cbn. rewrite Hn. auto.
  - rewrite Hn, Hc, Hx, Hy, length_fmap, layoutYs_length.
    pose proof (ok_colors _ _ (buildNodes_ok (yearGrid mergedSnap))).
    auto.
Qed.

Lemma link_indices_in_range_witness :
  exists g l, buildSankey scenario = inr g /\ l ∈ links g
              /\ length (ys g) = length (nodes g).
Proof.
  assert (H : exists g l,
             buildSankey scenario = inr g /\ links g !! 0%nat = Some l).
  { vm_compute. eexists. eexists. split; reflexivity. }
  destruct H as (g & l & Hrun & Hl).
  apply list_elem_of_lookup_2 in Hl.
  exists g, l. split; [exact Hrun|]. split; [exact Hl|].
  apply (link_indices_in_range scenario g l Hrun Hl).
Defined.

Section PipelineFacts.
Variable ln : Q -> Q.

(** A run succeeds when no column is missing and steps 3 to 6 succeed
    on the table [mergedSnap]: what is shown of [buildSankey] for every
    table holds of every run. *)
Lemma processParquetData_inr (table : Table) (g : SankeyData) :
  processParquetData ln table = inr g <->
  missingColumn table = None /\ buildSankey (prepare ln table) = inr g.
Proof.
  unfold processParquetData. destruct (missingColumn table) as [c|].
  - split; [discriminate|]. intros [H' _]. discriminate H'.
  - split; [intros H'; split; [reflexivity|exact H']|intros [_ H']; exact H'].
Qed.
End PipelineFacts.

(* ------------------------------------------------------------------ *)
(** ** The stable sort *)

Section SortFacts.
Context {A : Type} (le : A -> A -> bool).
Hypothesis le_total : forall a b, le a b = true \/ le b a = true.
Hypothesis le_trans : forall a b c, le a b = true -> le b c = true -> le a c = true.

Let leP (a b : A) : Prop := le a b = true.

Lemma insert_Permutation (x : A) (l : list A) : insert le x l ≡ₚ x :: l.
Proof.
  induction l as [|y l IH]; cbn; [reflexivity|].
  destruct (le x y); [reflexivity|].
  rewrite IH. apply perm_swap.
Qed.

Lemma sortBy_Permutation (l : list A) : sortBy le l ≡ₚ l.
Proof.
  induction l as [|x l IH]; cbn; [reflexivity|].
  rewrite insert_Permutation, IH. reflexivity.
Qed.

Lemma sortBy_elem_of (l : list A) (x : A) : x ∈ sortBy le l <-> x ∈ l.
Proof. rewrite (sortBy_Permutation l). reflexivity. Qed.

(** A sorted list is left as it is. *)
Lemma sortBy_sorted_id (l : list A) : StronglySorted leP l -> sortBy le l = l.
Proof.
  induction 1 as [|x l Hl IH Hx]; cbn; [reflexivity|].
  rewrite IH. destruct l as [|y l]; [reflexivity|]. cbn.
  apply Forall_inv in Hx. unfold leP in Hx. rewrite Hx. reflexivity.
Qed.

End SortFacts.

Lemma clipLower_Some (lower x : Q) :
  exists w, clipLower lower (Some x) = Some w
            /\ lower <= w /\ (lower <= x -> w = x) /\ (x < lower -> w = lower).
Proof.
  cbn. destruct (Qltb x lower) eqn:E; eexists; (split; [reflexivity|]).
  - apply Qltb_lt in E.
    repeat split; intros; try reflexivity; try lra; exfalso; lra.
  - apply Qltb_ge in E.
    repeat split; intros; try reflexivity; try lra; exfalso; lra.
Qed.

Lemma clip_Some (lower upper x : Q) :
  lower < upper ->
  exists w, clip lower upper (Some x) = Some w
            /\ lower <= w /\ w <= upper
            /\ (lower <= x -> x <= upper -> w = x)
            /\ (x < lower -> w = lower) /\ (upper < x -> w = upper).
Proof.
  intros Hlu. cbn.
  destruct (Qltb x lower) eqn:E1; [|destruct (Qltb upper x) eqn:E2];
    eexists; (split; [reflexivity|]);
    repeat match goal with
    | H : Qltb _ _ = true |- _ => apply Qltb_lt in H
    | H : Qltb _ _ = false |- _ => apply Qltb_ge in H
    end;
    repeat split; intros; try reflexivity; try lra; exfalso; lra.
Qed.

Lemma clipGlobal_cases (wt : list (option Q)) :
  (forall lo hi, clipBounds wt = (Some lo, Some hi) -> lo < hi ->
                 clipGlobal wt = (clip lo hi <$> wt))
  /\ (forall lo hi, clipBounds wt = (Some lo, Some hi) -> ~ lo < hi ->
                    clipGlobal wt = wt)
  /\ (fst (clipBounds wt) = None \/ snd (clipBounds wt) = None ->
      clipGlobal wt = wt).
Proof.
  unfold clipGlobal. cbn [CLIP_ENABLED].
  destruct (0 <? length (dropna wt))%nat eqn:En.
  - repeat split.
    + intros lo hi Hb Hlt. rewrite Hb. cbn.
      apply Qltb_lt in Hlt. rewrite Hlt. reflexivity.
    + intros lo hi Hb Hlt. rewrite Hb. cbn.
      destruct (Qltb lo hi) eqn:E; [|reflexivity].
      apply Qltb_lt in E. contradiction.
    + intros H. destruct (clipBounds wt) as [[lo|] [hi|]]; cbn in *;
        try reflexivity; destruct H; discriminate.
  - apply Nat.ltb_ge in En.
    assert (Hb : clipBounds wt = (None, None)).
    { unfold clipBounds. destruct (dropna wt); [reflexivity|cbn in En; lia]. }
    rewrite Hb. repeat split; try reflexivity; intros lo hi [=].
Qed.

Lemma clipGlobal_length (wt : list (option Q)) :
  length (clipGlobal wt) = length wt.
Proof.
  unfold clipGlobal.
  repeat match goal with
  | |- context [if ?c then _ else _] => destruct c
  end; rewrite ?length_fmap; reflexivity.
Qed.

Lemma assemble_columns merged ma wt wraw :
  length ma = length merged -> length wt = length merged ->
  length wraw = length merged ->
  (m_indicator_ma <$> assemble merged ma wt wraw) = ma
  /\ (w_t <$> assemble merged ma wt wraw) = wt
  /\ (w_raw <$> assemble merged ma wt wraw) = wraw
  /\ ((fun r => (m_REGN r, m_year r)) <$> assemble merged ma wt wraw)
     = ((fun m => snapKey (fst m)) <$> merged).
Proof.
  revert ma wt wraw.
  induction merged as [|m merged IH]; intros [|a ma] [|t wt] [|r wraw];
    cbn; try discriminate; auto.
  intros [= H1] [= H2] [= H3].
  destruct (IH ma wt wraw H1 H2 H3) as (E1 & E2 & E3 & E4).
  rewrite E1, E2, E3, E4. auto.
Qed.

Section WeightFacts.
Variable ln : Q -> Q.

(** The columns of [mergedSnap]: [w_t] and [w_raw] are the weights of
    the column [indicator_ma]. *)
Lemma mergedSnapOf_columns (DF : list Row) :
  let s := m_indicator_ma <$> mergedSnapOf ln DF in
  (w_t <$> mergedSnapOf ln DF) = fst (weights ln s)
  /\ (w_raw <$> mergedSnapOf ln DF) = snd (weights ln s).
Proof.
  unfold mergedSnapOf.
  set (merged := mergeLeft _ _).
  set (ma := (fun m => match mjoin (s_vals (fst m) !! 1%nat) with
                       | None => snd m
                       | Some v => Some v
                       end) <$> merged).
  destruct (assemble_columns merged ma (fst (weights ln ma)) (snd (weights ln ma)))
    as (E1 & E2 & E3 & _).
  - unfold ma. apply length_fmap.
  - unfold weights, baseWeights. cbn [fst].
    rewrite clipGlobal_length, length_fmap.
    unfold ma. apply length_fmap.
  - unfold weights. cbn [snd]. rewrite length_fmap. unfold ma. apply length_fmap.
  - cbn zeta. rewrite E1. auto.
Qed.
End WeightFacts.

Lemma filter_all {A : Type} (P : A -> Prop) `{!forall x, Decision (P x)}
    (l : list A) :
  (forall x, x ∈ l -> P x) -> filter P l = l.
Proof.
  induction l as [|x l IH]; intros Hall; [reflexivity|].
  rewrite filter_cons_True by (apply Hall; left).
  f_equal. apply IH. intros y Hy. apply Hall. right. exact Hy.
Qed.

(** *** Sums *)

Lemma osum_cons (x : option Q) (l : list (option Q)) :
  osum (x :: l) = oadd x (osum l).
Proof. reflexivity. Qed.

Lemma osum_all_Some (l : list (option Q)) :
  Forall is_Some l -> osum l = Some (Qsum (orZero <$> l)).
Proof.
  induction 1 as [|x l [v ->] _ IH]; [reflexivity|].
  cbn [fmap list_fmap]. rewrite osum_cons, IH. reflexivity.
Qed.

(* ------------------------------------------------------------------ *)
(** ** The year grid *)

Lemma gridLoop_sorted (fuel : nat) (y max_year step : Z) :
  (0 < step)%Z ->
  StronglySorted Z.lt (gridLoop fuel y max_year step)
  /\ Forall (fun z => (y <= z)%Z) (gridLoop fuel y max_year step).
Proof.
  intros Hstep. revert y.
  induction fuel as [|fuel IH]; intros y; cbn [gridLoop].
  - split; constructor.
  - destruct (y <=? max_year)%Z; [|split; constructor].
    destruct (IH (y + step)%Z) as [Hs Hall]. split.
    + constructor; [exact Hs|].
      eapply Forall_impl; [exact Hall|]. cbn. intros z Hz. lia.
    + constructor; [lia|].
      eapply Forall_impl; [exact Hall|]. cbn. intros z Hz. lia.
Qed.

Lemma sorted_below_last (l : list Z) (y : Z) :
  StronglySorted Z.lt l -> last l = Some y -> forall x, x ∈ l -> (x <= y)%Z.
Proof.
  induction 1 as [|a l Hl IH Ha]; intros Hlast x Hx; [inversion Hx|].
  destruct l as [|b l].
  - cbn in Hlast. injection Hlast as <-.
    apply list_elem_of_singleton in Hx as ->. lia.
  - rewrite last_cons_cons in Hlast.
    apply elem_of_cons in Hx as [->|Hx]; [|exact (IH Hlast x Hx)].
    rewrite Forall_forall in Ha.
    assert (Hy : y ∈ b :: l) by (apply last_Some_elem_of; exact Hlast).
    specialize (Ha y Hy). lia.
Qed.

Lemma buildYearGrid_sorted (min_year max_year step : Z) :
  (0 < step)%Z -> StronglySorted Z.lt (buildYearGrid min_year max_year step).
Proof.
  intros Hstep. unfold buildYearGrid.
  destruct (gridLoop_sorted (Z.to_nat (max_year - min_year) + 1)
              min_year max_year step Hstep) as [Hs _].
  set (years := gridLoop _ _ _ _) in *.
  destruct (last years) as [y|] eqn:El.
  - destruct (y <? max_year)%Z eqn:E; [|exact Hs].
    apply Z.ltb_lt in E. apply StronglySorted_app_2; [|exact Hs|repeat constructor].
    intros x1 x2 H1 H2. apply list_elem_of_singleton in H2 as ->.
    pose proof (sorted_below_last years y Hs El x1 H1). lia.
  - apply last_None in El. rewrite El. repeat constructor.
Qed.

Lemma sorted_lt_NoDup (l : list Z) : StronglySorted Z.lt l -> NoDup l.
Proof.
  induction 1 as [|a l Hl IH Ha]; constructor; [|exact IH].
  intros Hin. rewrite Forall_forall in Ha. specialize (Ha a Hin). lia.
Qed.

Lemma yearGrid_NoDup (mergedSnap : list Weighted) : NoDup (yearGrid mergedSnap).
Proof.
  unfold yearGrid. destruct (m_year <$> mergedSnap); [constructor|].
  apply sorted_lt_NoDup, buildYearGrid_sorted. reflexivity.
Qed.

(** In a grid without repetition a year starts one step at most. *)
Lemma steps_functional (YEARS : list Z) (i : nat) (y0 y1 b : Z) :
  NoDup YEARS ->
  YEARS !! i = Some y0 -> YEARS !! S i = Some y1 ->
  (y0, b) ∈ steps YEARS -> b = y1.
Proof.
  intros Hnd H0 H1 Hb. apply steps_lookup in Hb as (j & Hj0 & Hj1).
  assert (j = i) by (eapply NoDup_lookup; eassumption). subst j. congruence.
Qed.

Lemma steps_fst_NoDup (YEARS : list Z) : NoDup YEARS -> NoDup (fst <$> steps YEARS).
Proof.
  unfold steps. generalize (tail YEARS). intros k Hnd. revert k.
  induction Hnd as [|y l Hy Hnd IH]; intros [|b k]; cbn; try constructor.
  - intros Hin. apply Hy.
    apply list_elem_of_fmap in Hin as ([a c] & -> & Hin).
    apply elem_of_zip_l in Hin. exact Hin.
  - apply IH.
Qed.

(* ================================================================== *)
(** * Further properties of the pipeline *)

(* ------------------------------------------------------------------ *)
(** ** The year grid, from its first year to its last *)

(** The years the loop of [buildYearGrid] pushes. *)
Lemma gridLoop_elem_of (fuel : nat) (y max_year step z : Z) :
  (0 < step)%Z ->
  z ∈ gridLoop fuel y max_year step <->
  exists k : nat, (k < fuel)%nat /\ z = (y + Z.of_nat k * step)%Z
                  /\ (z <= max_year)%Z.
Proof.
  intros Hstep. revert y.
  induction fuel as [|fuel IH]; intros y; cbn [gridLoop].
  - split; [intros H; inversion H | intros (k & Hk & _); lia].
  - destruct (y <=? max_year)%Z eqn:E.
    + apply Z.leb_le in E. rewrite elem_of_cons, IH. split.
      * intros [->|(k & Hk & -> & Hle)].
        -- exists 0%nat. split; [lia|]. split; lia.
        -- exists (S k). split; [lia|]. split; lia.
      * intros (k & Hk & -> & Hle). destruct k as [|k]; [left; lia|].
        right. exists k. split; [lia|]. split; lia.
    + apply Z.leb_gt in E. split; [intros H; inversion H|].
      intros (k & _ & -> & Hle). nia.
Qed.

Lemma gridLoop_head (fuel : nat) (y max_year step : Z) :
  (y <= max_year)%Z -> head (gridLoop (S fuel) y max_year step) = Some y.
Proof.
  intros H. cbn [gridLoop]. apply Z.leb_le in H. rewrite H. reflexivity.
Qed.

Lemma sorted_lookup_lt (l : list Z) (i j : nat) (a b : Z) :
  StronglySorted Z.lt l -> l !! i = Some a -> l !! j = Some b ->
  (i < j)%nat -> (a < b)%Z.
Proof.
  intros Hs. revert i j.
  induction Hs as [|x l Hl IH Hx]; intros i j Hi Hj Hij; [discriminate Hi|].
  destruct j as [|j]; [lia|]. cbn in Hj.
  destruct i as [|i]; cbn in Hi.
  - injection Hi as <-. rewrite Forall_forall in Hx.
    apply Hx. eapply list_elem_of_lookup_2. exact Hj.
  - apply (IH i j); [assumption..|lia].
Qed.

(** Between two neighbours of a sorted list there is no element. *)
Lemma sorted_neighbours (l : list Z) (i : nat) (a b z : Z) :
  StronglySorted Z.lt l -> l !! i = Some a -> l !! S i = Some b ->
  z ∈ l -> (a < z)%Z -> (b <= z)%Z.
Proof.
  intros Hs Ha Hb Hz Haz.
  apply list_elem_of_lookup_1 in Hz as [j Hj].
  destruct (decide (j <= i)%nat) as [Hle|Hgt].
  - destruct (decide (j = i)) as [->|Hne]; [rewrite Ha in Hj; injection Hj; lia|].
    pose proof (sorted_lookup_lt l j i z a Hs Hj Ha). lia.
  - destruct (decide (j = S i)) as [->|Hne]; [rewrite Hb in Hj; injection Hj; lia|].
    pose proof (sorted_lookup_lt l (S i) j b z Hs Hb Hj). lia.
Qed.

Lemma buildYearGrid_elem_of (min_year max_year step y : Z) :
  (0 < step)%Z -> (min_year <= max_year)%Z ->
  y ∈ buildYearGrid min_year max_year step <->
  y = max_year
  \/ exists k : Z, (0 <= k)%Z /\ y = (min_year + k * step)%Z /\ (y <= max_year)%Z.
Proof.
  intros Hstep Hle. unfold buildYearGrid.
  set (fuel := (Z.to_nat (max_year - min_year) + 1)%nat).
  assert (Hin : forall z, z ∈ gridLoop fuel min_year max_year step <->
            exists k : Z, (0 <= k)%Z /\ z = (min_year + k * step)%Z
                          /\ (z <= max_year)%Z).
  { intros z. rewrite gridLoop_elem_of by exact Hstep. split.
    - intros (k & _ & -> & Hk). exists (Z.of_nat k). split; [lia|]. split; lia.
    - intros (k & Hk & -> & Hz). exists (Z.to_nat k).
      rewrite Z2Nat.id by exact Hk. split; [|split; [reflexivity|exact Hz]].
      unfold fuel. nia. }
  destruct (gridLoop_sorted fuel min_year max_year step Hstep) as [Hs _].
  destruct (last (gridLoop fuel min_year max_year step)) as [z|] eqn:El.
  - destruct (z <? max_year)%Z eqn:E.
    + rewrite elem_of_app, list_elem_of_singleton, Hin. tauto.
    + apply Z.ltb_ge in E. rewrite Hin.
      assert (Hz : z ∈ gridLoop fuel min_year max_year step)
        by (apply last_Some_elem_of; exact El).
      pose proof (proj1 (Hin z) Hz) as (k & Hk & Hzk & Hzle).
      assert (z = max_year) by lia. subst z.
      split; [auto|]. intros [->|Hy]; [|exact Hy]. exists k. split; [lia|]. split; lia.
  - apply last_None in El.
    assert (Hmin : min_year ∈ gridLoop fuel min_year max_year step).
    { apply Hin. exists 0%Z. split; [lia|]. split; lia. }
    rewrite El in Hmin. inversion Hmin.
Qed.

Lemma buildYearGrid_head (min_year max_year step : Z) :
  (min_year <= max_year)%Z ->
  head (buildYearGrid min_year max_year step) = Some min_year.
Proof.
  intros Hle. unfold buildYearGrid.
  rewrite Nat.add_1_r.
  pose proof (gridLoop_head (Z.to_nat (max_year - min_year))
                min_year max_year step Hle) as Hh.
  destruct (gridLoop _ min_year max_year step) as [|a l]; [discriminate Hh|].
  destruct (last (a :: l)) as [y|]; [destruct (y <? max_year)%Z|]; exact Hh.
Qed.

Lemma buildYearGrid_last (min_year max_year step : Z) :
  (0 < step)%Z ->
  last (buildYearGrid min_year max_year step) = Some max_year.
Proof.
  intros Hstep. unfold buildYearGrid.
  set (years := gridLoop _ min_year max_year step).
  assert (Hall : forall z, z ∈ years -> (z <= max_year)%Z).
  { intros z Hz. apply gridLoop_elem_of in Hz as (k & _ & _ & Hz);
      [exact Hz|exact Hstep]. }
  destruct (last years) as [y|] eqn:El.
  - destruct (y <? max_year)%Z eqn:E; [apply last_snoc|].
    apply Z.ltb_ge in E. rewrite El. f_equal.
    pose proof (Hall y (last_Some_elem_of _ _ El)). lia.
  - apply last_snoc.
Qed.

(** X1: the year grid.  For a positive step and a first year that is not
    after the last, [buildYearGrid] returns the years first, first +
    step, first + 2 step, ... up to the last year, and the last year
    itself whether or not it is on that ladder: the grid starts at the
    first year, ends at the last, is strictly increasing, and two
    neighbouring years are at most one step apart.  When the first year
    is after the last the loop does not run and the grid is the last
    year alone. *)
Theorem buildYearGrid_spec (min_year max_year step : Z) :
  (0 < step)%Z ->
  let years := buildYearGrid min_year max_year step in
  ((min_year <= max_year)%Z ->
     head years = Some min_year
     /\ last years = Some max_year
     /\ StronglySorted Z.lt years
     /\ (forall y, y ∈ years <->
           y = max_year
           \/ exists k : Z, (0 <= k)%Z /\ y = (min_year + k * step)%Z
                            /\ (y <= max_year)%Z)
     /\ (forall (i : nat) (y0 y1 : Z),
           years !! i = Some y0 -> years !! S i = Some y1 ->
           (y0 < y1 <= y0 + step)%Z))
  /\ ((max_year < min_year)%Z -> years = [max_year]).
Proof.
  intros Hstep years. split.
  - intros Hle.
    pose proof (buildYearGrid_sorted min_year max_year step Hstep) as Hs.
    split; [apply buildYearGrid_head; exact Hle|].
    split; [apply buildYearGrid_last; exact Hstep|].
    split; [exact Hs|].
    split; [intros y; apply buildYearGrid_elem_of; assumption|].
    intros i y0 y1 H0 H1. fold years in Hs.
    split; [apply (sorted_lookup_lt years i (S i)); auto|].
    assert (Hy0 : y0 ∈ years) by (eapply list_elem_of_lookup_2; exact H0).
    assert (Hy1 : y1 ∈ years) by (eapply list_elem_of_lookup_2; exact H1).
    apply buildYearGrid_elem_of in Hy1; [|assumption..].
    assert (Hy1le : (y1 <= max_year)%Z) by (destruct Hy1 as [->|(k & _ & _ & Hz)]; lia).
    destruct (decide (y0 + step <= max_year)%Z) as [Hin|Hout]; [|lia].
    apply (sorted_neighbours years i y0 y1); [assumption..| |lia].
    apply buildYearGrid_elem_of; [assumption..|].
    apply buildYearGrid_elem_of in Hy0; [|assumption..].
    destruct Hy0 as [->|(k & Hk & -> & _)]; [lia|].
    right. exists (k + 1)%Z. split; [lia|]. split; lia.
  - intros Hlt. subst years. unfold buildYearGrid.
    replace (Z.to_nat (max_year - min_year)) with 0%nat by lia.
    cbn [Nat.add gridLoop].
    apply Z.leb_gt in Hlt. rewrite Hlt. reflexivity.
Qed.

Lemma buildYearGrid_spec_witness :
  buildYearGrid 2004 2025 4 = [2004; 2008; 2012; 2016; 2020; 2024; 2025]%Z
  /\ last (buildYearGrid 2004 2025 4) = Some 2025%Z
  /\ buildYearGrid 2025 2004 4 = [2004%Z].
Proof.
  destruct (buildYearGrid_spec 2004 2025 4 ltac:(lia)) as [H _].
  destruct (buildYearGrid_spec 2025 2004 4 ltac:(lia)) as [_ H'].
  split; [reflexivity|]. split; [apply H; lia | apply H'; lia].
Defined.

Lemma dropna_elem_of (s : list (option Q)) (v : Q) :
  v ∈ dropna s <-> Some v ∈ s.
Proof.
  induction s as [|[x|] s IH]; cbn [dropna].
  - split; intros H; inversion H.
  - rewrite !elem_of_cons, IH. split; intros [H|H]; auto; left; congruence.
  - rewrite elem_of_cons, IH. split; [auto|]. intros [H|H]; [discriminate|exact H].
Qed.

(* ------------------------------------------------------------------ *)
(** ** The weights are never negative *)

Section WeightSigns.
Variable ln : Q -> Q.

Lemma baseWeights_cell (v : option Q) :
  (is_Some (clipLower 0 (transform ln v)) <-> is_Some v)
  /\ forall x, clipLower 0 (transform ln v) = Some x -> 0 <= x.
Proof.
  destruct v as [v|].
  - change (transform ln (Some v)) with (Some (ln (Qabs v + 1))).
    destruct (clipLower_Some 0 (ln (Qabs v + 1))) as (w & -> & Hw & _).
    split; [split; intros _; eexists; reflexivity|].
    intros x [= <-]. exact Hw.
  - cbn. split; [reflexivity|discriminate].
Qed.

Lemma clip_cell (lo hi : Q) (c : option Q) :
  lo < hi -> 0 <= lo ->
  (is_Some (clip lo hi c) <-> is_Some c)
  /\ forall x, clip lo hi c = Some x -> 0 <= x.
Proof.
  intros Hlt Hlo. destruct c as [v|].
  - destruct (clip_Some lo hi v Hlt) as (w & -> & Hw & _).
    split; [split; intros _; eexists; reflexivity|].
    intros x [= <-]. lra.
  - cbn. split; [reflexivity|discriminate].
Qed.

Lemma clipBounds_lower_elem_of (wt : list (option Q)) (lo : Q) :
  fst (clipBounds wt) = Some lo -> Some lo ∈ wt.
Proof.
  unfold clipBounds. cbn [fst]. intros H.
  apply list_elem_of_lookup_2, sortBy_elem_of in H.
  apply dropna_elem_of, H.
Qed.

(** A cell of the column [w_t]: defined when the indicator is, and not
    negative. *)
Lemma weights_fst_cell (s : list (option Q)) (i : nat) (c : option Q) :
  fst (weights ln s) !! i = Some c ->
  exists v, s !! i = Some v /\ (is_Some c <-> is_Some v)
            /\ forall x, c = Some x -> 0 <= x.
Proof.
  unfold weights. cbn [fst]. set (t := baseWeights ln s).
  assert (Ht : forall c0, t !! i = Some c0 ->
            exists v, s !! i = Some v /\ (is_Some c0 <-> is_Some v)
                      /\ forall x, c0 = Some x -> 0 <= x).
  { intros c0. unfold t, baseWeights. rewrite list_lookup_fmap.
    destruct (s !! i) as [v|]; [|discriminate]. intros [= <-].
    exists v. split; [reflexivity|]. apply baseWeights_cell. }
  destruct (clipGlobal_cases t) as (Hclip & Hkeep & Hnone).
  destruct (clipBounds t) as [[lo|] [hi|]] eqn:Eb;
    [|rewrite Hnone by (right; reflexivity); exact (Ht c)
     |rewrite Hnone by (left; reflexivity); exact (Ht c)
     |rewrite Hnone by (left; reflexivity); exact (Ht c)].
  destruct (Qlt_le_dec lo hi) as [Hlt|Hge].
  - rewrite (Hclip lo hi eq_refl Hlt), list_lookup_fmap.
    destruct (t !! i) as [c0|] eqn:E0; [|discriminate]. intros [= <-].
    destruct (Ht c0 eq_refl) as (v & Hv & Hsome & Hpos).
    assert (Hlo : 0 <= lo).
    { assert (Hin : Some lo ∈ t)
        by (apply clipBounds_lower_elem_of; rewrite Eb; reflexivity).
      apply list_elem_of_lookup_1 in Hin as [j Hj].
      unfold t, baseWeights in Hj. rewrite list_lookup_fmap in Hj.
      destruct (s !! j) as [vj|]; [|discriminate]. injection Hj as Hj.
      exact (proj2 (baseWeights_cell vj) lo Hj). }
    destruct (clip_cell lo hi c0 Hlt Hlo) as [Hs Hp].
    exists v. split; [exact Hv|]. split; [rewrite Hs; exact Hsome|exact Hp].
  - rewrite (Hkeep lo hi eq_refl) by lra. exact (Ht c).
Qed.

Lemma weights_snd_cell (s : list (option Q)) (i : nat) (c : option Q) :
  snd (weights ln s) !! i = Some c ->
  exists v, s !! i = Some v /\ c = clipLower 0 v /\ (is_Some c <-> is_Some v)
            /\ forall x, c = Some x -> 0 <= x.
Proof.
  unfold weights. cbn [snd]. rewrite list_lookup_fmap.
  destruct (s !! i) as [v|]; [|discriminate]. intros [= <-].
  exists v. split; [reflexivity|]. split; [reflexivity|].
  destruct v as [v|].
  - destruct (clipLower_Some 0 v) as (w & -> & Hw & _).
    split; [split; intros _; eexists; reflexivity|].
    intros x [= <-]. exact Hw.
  - cbn. split; [reflexivity|discriminate].
Qed.

(** The cells of a row of the prepared table. *)
Lemma prepare_weight_cells (table : Table) (r : Weighted) :
  r ∈ prepare ln table ->
  (is_Some (w_t r) <-> is_Some (m_indicator_ma r))
  /\ (is_Some (w_raw r) <-> is_Some (m_indicator_ma r))
  /\ (forall x, w_t r = Some x -> 0 <= x)
  /\ (forall x, w_raw r = Some x -> 0 <= x)
  /\ w_raw r = clipLower 0 (m_indicator_ma r).
Proof.
  intros Hr. apply list_elem_of_lookup_1 in Hr as [i Hi].
  unfold prepare in *. set (DF := addIndicatorMa _) in *.
  destruct (mergedSnapOf_columns ln DF) as [Ewt Eraw].
  cbv zeta in Ewt, Eraw.
  assert (Hwt : fst (weights ln (m_indicator_ma <$> mergedSnapOf ln DF)) !! i
                = Some (w_t r)).
  { rewrite <- Ewt, list_lookup_fmap, Hi. reflexivity. }
  assert (Hraw : snd (weights ln (m_indicator_ma <$> mergedSnapOf ln DF)) !! i
                 = Some (w_raw r)).
  { rewrite <- Eraw, list_lookup_fmap, Hi. reflexivity. }
  apply weights_fst_cell in Hwt as (v & Hv & Hs1 & Hp1).
  apply weights_snd_cell in Hraw as (v' & Hv' & Hc & Hs2 & Hp2).
  rewrite list_lookup_fmap, Hi in Hv, Hv'. cbn in Hv, Hv'.
  injection Hv as <-. injection Hv' as <-. auto.
Qed.
End WeightSigns.

Lemma pretty_N_char_digit (x : N) :
  (x < 10)%N -> digitOf (pretty_N_char x) = Some (Z.of_N x).
Proof.
  intros H.
  assert (Hx : x = 0%N \/ x = 1%N \/ x = 2%N \/ x = 3%N \/ x = 4%N \/ x = 5%N
               \/ x = 6%N \/ x = 7%N \/ x = 8%N \/ x = 9%N) by lia.
  repeat (destruct Hx as [->|Hx]; [reflexivity|]). subst x. reflexivity.
Qed.

(** The decimal digits of a number are digits. *)
Lemma pretty_N_go_digits (x : N) (s : string) (c : ascii) :
  c ∈ list_ascii_of_string (pretty_N_go x s) ->
  c ∈ list_ascii_of_string s \/ is_Some (digitOf c).
Proof.
  revert s. induction (N.lt_wf_0 x) as [x _ IH]. intros s Hc.
  destruct (decide (x = 0%N)) as [->|Hx].
  - rewrite pretty_N_go_0 in Hc. left. exact Hc.
  - rewrite pretty_N_go_step in Hc by lia.
    apply IH in Hc; [|apply N.div_lt; lia].
    destruct Hc as [Hc|Hc]; [|right; exact Hc].
    cbn in Hc. apply elem_of_cons in Hc as [->|Hc]; [right|left; exact Hc].
    rewrite pretty_N_char_digit by (apply N.mod_lt; lia). eexists. reflexivity.
Qed.

Lemma pretty_Z_chars (y : Z) (c : ascii) :
  c ∈ list_ascii_of_string (pretty y) -> c = "-"%char \/ is_Some (digitOf c).
Proof.
  assert (Hpos : forall p, c ∈ list_ascii_of_string (pretty (N.pos p)) ->
                           is_Some (digitOf c)).
  { intros p. unfold pretty, pretty_N.
    rewrite decide_False by discriminate. intros Hc.
    apply pretty_N_go_digits in Hc as [Hc|Hc]; [inversion Hc|exact Hc]. }
  destruct y as [|p|p]; unfold pretty, pretty_Z.
  - cbn. intros Hc. apply list_elem_of_singleton in Hc as ->.
    right. eexists. reflexivity.
  - intros Hc. right. apply (Hpos p), Hc.
  - cbn. intros Hc. apply elem_of_cons in Hc as [->|Hc]; [left; reflexivity|].
    right. apply (Hpos p), Hc.
Qed.

Lemma pretty_Z_no_colon (y : Z) : ":"%char ∉ list_ascii_of_string (pretty y).
Proof.
  intros H. apply pretty_Z_chars in H as [H|[d H]]; [discriminate H|].
  vm_compute in H. discriminate H.
Qed.

(** [parseInt] reads back the decimal digits. *)
Lemma parseDigits_pretty_N_go (x : N) (s : string) :
  (0 < x)%N ->
  parseDigits None (pretty_N_go x s) = parseDigits (Some (Z.of_N x)) s.
Proof.
  revert s. induction (N.lt_wf_0 x) as [x _ IH]. intros s Hx.
  rewrite pretty_N_go_step by exact Hx.
  assert (Hd : digitOf (pretty_N_char (x `mod` 10)) = Some (Z.of_N (x `mod` 10)))
    by (apply pretty_N_char_digit, N.mod_lt; lia).
  destruct (decide (x `div` 10 = 0)%N) as [E|E].
  - rewrite E, pretty_N_go_0. cbn [parseDigits]. rewrite Hd. cbn [default].
    f_equal. f_equal. pose proof (N.div_mod x 10 ltac:(lia)). lia.
  - rewrite IH; [|apply N.div_lt; lia|apply N.neq_0_lt_0, E].
    cbn [parseDigits]. rewrite Hd. cbn [default from_option id].
    f_equal. f_equal. pose proof (N.div_mod x 10 ltac:(lia)).
    rewrite N2Z.inj_div, N2Z.inj_mod. change (Z.of_N 10) with 10%Z.
    pose proof (Z.div_mod (Z.of_N x) 10 ltac:(lia)). lia.
Qed.

Lemma parseInt_unsigned (c : ascii) (s : string) :
  is_Some (digitOf c) -> parseInt (String c s) = parseDigits None (String c s).
Proof.
  intros [d Hd]. unfold parseInt.
  destruct (decide (c = "-"%char)) as [->|H1]; [vm_compute in Hd; discriminate Hd|].
  destruct (decide (c = "+"%char)) as [->|H2]; [vm_compute in Hd; discriminate Hd|].
  destruct c as [[] [] [] [] [] [] [] []]; try reflexivity; congruence.
Qed.

Lemma parseInt_pretty_pos (p : positive) :
  parseInt (pretty (N.pos p)) = Some (Z.pos p)
  /\ parseDigits None (pretty (N.pos p)) = Some (Z.pos p).
Proof.
  unfold pretty, pretty_N. rewrite decide_False by discriminate.
  assert (E : parseDigits None (pretty_N_go (N.pos p) "") = Some (Z.pos p))
    by (rewrite parseDigits_pretty_N_go by lia; reflexivity).
  split; [|exact E].
  destruct (pretty_N_go (N.pos p) "") as [|c s] eqn:Es; [discriminate E|].
  rewrite parseInt_unsigned; [exact E|].
  assert (Hc : c ∈ list_ascii_of_string (pretty_N_go (N.pos p) ""))
    by (rewrite Es; left).
  apply pretty_N_go_digits in Hc as [Hc|Hc]; [inversion Hc|exact Hc].
Qed.

Lemma parseInt_pretty (y : Z) : parseInt (pretty y) = Some y.
Proof.
  destruct y as [|p|p]; unfold pretty, pretty_Z.
  - reflexivity.
  - apply parseInt_pretty_pos.
  - change (parseInt ("-" +:+ pretty p))
      with (Z.opp <$> parseDigits None (pretty (N.pos p))).
    rewrite (proj2 (parseInt_pretty_pos p)). reflexivity.
Qed.

(** [split] cuts a label at its first colon. *)
Lemma string_app_assoc (a : string) (c : ascii) (b : string) :
  (a +:+ String c "") +:+ b = a +:+ String c b.
Proof.
  induction a as [|d a IH]; [reflexivity|].
  change (String d (((a +:+ String c "") +:+ b)) = String d (a +:+ String c b)).
  rewrite IH. reflexivity.
Qed.

Lemma string_app_empty (a : string) : a +:+ "" = a.
Proof.
  induction a as [|d a IH]; [reflexivity|].
  change (String d (a +:+ "") = String d a). rewrite IH. reflexivity.
Qed.

Lemma split_go_colon_free (a cur rest : string) :
  ":"%char ∉ list_ascii_of_string a ->
  split_go ": " 0 cur (a +:+ ": " +:+ rest)
  = (cur +:+ a) :: split_go ": " 0 "" rest.
Proof.
  revert cur. induction a as [|c a IH]; intros cur Ha.
  - rewrite string_app_empty.
    change ("" +:+ ": " +:+ rest) with (String ":" (String " " rest)).
    destruct rest; reflexivity.
  - change (String c a +:+ ": " +:+ rest) with (String c (a +:+ ": " +:+ rest)).
    cbn [split_go]. cbn [list_ascii_of_string] in Ha.
    assert (Hc : c <> ":"%char) by (intros ->; apply Ha; left).
    assert (Ha' : ":"%char ∉ list_ascii_of_string a)
      by (intros H; apply Ha; right; exact H).
    replace (String.prefix ": " (String c (a +:+ ": " +:+ rest))) with false.
    + rewrite IH by exact Ha'. rewrite string_app_assoc. reflexivity.
    + cbn [String.prefix].
      destruct (ascii_dec ":" c) as [E|_]; [congruence|reflexivity].
Qed.

Lemma split_CAT_ORDER (cat : string) :
  cat ∈ CAT_ORDER -> split ": " cat = [cat].
Proof.
  intros H. apply list_elem_of_In in H. cbn in H.
  repeat (destruct H as [<-|H]; [reflexivity|]). destruct H.
Qed.

Lemma split_nodeKey (y : Z) (cat : string) :
  cat ∈ CAT_ORDER -> split ": " (nodeKey y cat) = [pretty y; cat].
Proof.
  intros Hc. unfold split, nodeKey.
  rewrite split_go_colon_free by apply pretty_Z_no_colon.
  cbn [append]. f_equal. apply (split_CAT_ORDER cat Hc).
Qed.

Lemma nodeKey_inj (y y' : Z) (cat cat' : string) :
  cat ∈ CAT_ORDER -> cat' ∈ CAT_ORDER ->
  nodeKey y cat = nodeKey y' cat' -> y = y' /\ cat = cat'.
Proof.
  intros Hc Hc' E. apply (f_equal (split ": ")) in E.
  rewrite !split_nodeKey in E by assumption.
  injection E as E1 E2. split; [|exact E2].
  apply (inj pretty). exact E1.
Qed.

(** X8: a node label can be read back.  The label of the node of year y
    and category cat is the decimal year, a colon, a space and the
    category; for every category of [CAT_ORDER], cutting the label at
    ": " gives back the two parts, [parseInt] of the first part is y
    (negative years included), and two nodes have the same label only
    when they have the same year and the same category. *)
Theorem node_label_round_trip (y : Z) (cat : string) :
  cat ∈ CAT_ORDER ->
  split ": " (nodeKey y cat) = [pretty y; cat]
  /\ parseInt (pretty y) = Some y
  /\ (forall y' cat', cat' ∈ CAT_ORDER ->
        nodeKey y cat = nodeKey y' cat' -> y = y' /\ cat = cat').
Proof.
  intros Hc. split; [apply split_nodeKey, Hc|].
  split; [apply parseInt_pretty|].
  intros y' cat' Hc'. apply nodeKey_inj; assumption.
Qed.

Lemma node_label_round_trip_witness :
  split ": " (nodeKey 2024 EXIT_LABEL) = ["2024"; "Exit"]
  /\ parseInt "2024" = Some 2024%Z.
Proof.
  destruct (node_label_round_trip 2024 EXIT_LABEL EXIT_in_CAT_ORDER)
    as (H1 & H2 & _).
  split; [exact H1|exact H2].
Defined.

(* ------------------------------------------------------------------ *)
(** ** The node table, position by position *)

Lemma uniq_NoDup_id {K : Type} `{EqDecision K} (l : list K) :
  NoDup l -> uniq l = l.
Proof.
  induction 1 as [|k l Hk Hnd IH]; cbn [uniq]; [reflexivity|].
  rewrite IH. f_equal. apply filter_all. intros x Hx ->. exact (Hk Hx).
Qed.

Lemma CAT_ORDER_NoDup : NoDup CAT_ORDER.
Proof. apply (@bool_decide_unpack _ (NoDup_dec _)). vm_compute. exact I. Qed.

Lemma allPairs_elem_of (YEARS : list Z) (y : Z) (cat : string) :
  (y, cat) ∈ allPairs YEARS <-> y ∈ YEARS /\ cat ∈ CAT_ORDER.
Proof.
  unfold allPairs. rewrite list_elem_of_bind. split.
  - intros (y' & Hc & Hy). apply list_elem_of_fmap in Hc as (c & [= -> ->] & Hc).
    auto.
  - intros [Hy Hc]. exists y. split; [|exact Hy].
    apply list_elem_of_fmap. eauto.
Qed.

Lemma allPairs_NoDup (YEARS : list Z) : NoDup YEARS -> NoDup (allPairs YEARS).
Proof.
  intros Hnd. unfold allPairs. apply NoDup_bind; [| |exact Hnd].
  - intros y1 y2 [y c] _ _ H1 H2.
    apply list_elem_of_fmap in H1 as (c1 & [= -> ->] & _).
    apply list_elem_of_fmap in H2 as (c2 & [= -> _] & _). reflexivity.
  - intros y _. apply NoDup_fmap_2_strong; [|apply CAT_ORDER_NoDup].
    intros c1 c2 _ _ [= ->]. reflexivity.
Qed.

Lemma allKeys_NoDup (YEARS : list Z) : NoDup YEARS -> NoDup (allKeys YEARS).
Proof.
  intros Hnd. unfold allKeys. apply NoDup_fmap_2_strong; [|apply allPairs_NoDup, Hnd].
  intros [y c] [y' c'] Hp Hp' E. cbn in E.
  apply allPairs_elem_of in Hp as [_ Hc]. apply allPairs_elem_of in Hp' as [_ Hc'].
  destruct (nodeKey_inj y y' c c' Hc Hc' E) as [-> ->]. reflexivity.
Qed.

Lemma allPairs_length (YEARS : list Z) :
  length (allPairs YEARS) = (7 * length YEARS)%nat.
Proof.
  unfold allPairs. induction YEARS as [|y YEARS IH]; [reflexivity|].
  rewrite bind_cons, length_app, IH, length_fmap.
  change (length CAT_ORDER) with 7%nat. cbn [length]. lia.
Qed.

(** The pair of the i-th year and the j-th category stands at 7 i + j. *)
Lemma allPairs_lookup (YEARS : list Z) (i j : nat) (y : Z) (cat : string) :
  YEARS !! i = Some y -> CAT_ORDER !! j = Some cat ->
  allPairs YEARS !! (7 * i + j)%nat = Some (y, cat).
Proof.
  intros Hy Hc. unfold allPairs. revert i Hy.
  induction YEARS as [|y0 YEARS IH]; intros i Hy; [discriminate Hy|].
  rewrite bind_cons.
  assert (Hj : (j < 7)%nat) by (apply lookup_lt_Some in Hc; exact Hc).
  destruct i as [|i]; cbn in Hy.
  - injection Hy as ->. rewrite lookup_app_l by (rewrite length_fmap; exact Hj).
    rewrite list_lookup_fmap. replace (7 * 0 + j)%nat with j by lia.
    rewrite Hc. reflexivity.
  - rewrite lookup_app_r by (rewrite length_fmap; change (length CAT_ORDER) with 7%nat; lia).
    rewrite length_fmap. change (length CAT_ORDER) with 7%nat.
    replace (7 * S i + j - 7)%nat with (7 * i + j)%nat by lia.
    apply IH, Hy.
Qed.

(** Registering pairs with distinct labels appends every pair. *)
Lemma foldl_addNode_table (ps : list (Z * string)) :
  NoDup ((fun p => nodeKey (fst p) (snd p)) <$> ps) ->
  let st := foldl (fun st p => addNode (fst p) st (snd p))
                  (mkNodeTable [] ∅ []) ps in
  nt_nodes st = ((fun p => nodeKey (fst p) (snd p)) <$> ps)
  /\ nt_node_colors st
     = ((fun p => default "rgba(150,150,150,0.85)" (NODE_COLORS !! snd p)) <$> ps)
  /\ forall k, nt_node_id st !! k = None <-> k ∉ nt_nodes st.
Proof.
  induction ps as [|p ps IH] using rev_ind; intros Hnd st.
  - cbn. split; [reflexivity|]. split; [reflexivity|].
    intros k. rewrite lookup_empty. split; [intros _ H; inversion H|reflexivity].
  - rewrite fmap_app in Hnd. apply NoDup_app in Hnd as (Hnd & Hnew & _).
    destruct (IH Hnd) as (Hn & Hc & Hid). subst st.
    rewrite foldl_app. cbn [foldl].
    set (st0 := foldl _ _ ps) in *. unfold addNode.
    assert (Hp : nodeKey (fst p) (snd p) ∉ nt_nodes st0).
    { rewrite Hn. intros Hin. apply (Hnew _ Hin). cbn. left. }
    rewrite (proj2 (Hid _) Hp). cbn [nt_nodes nt_node_colors nt_node_id].
    rewrite !fmap_app, Hn, Hc. split; [reflexivity|]. split; [reflexivity|].
    intros k. rewrite elem_of_app, <- Hn. cbn [fmap list_fmap].
    rewrite list_elem_of_singleton.
    destruct (decide (k = nodeKey (fst p) (snd p))) as [->|Hne].
    + rewrite lookup_insert_eq. split; [discriminate|]. intros H. exfalso. auto.
    + rewrite lookup_insert_ne by congruence. rewrite Hid. tauto.
Qed.

Lemma NODE_COLORS_defined (cat : string) :
  cat ∈ CAT_ORDER -> is_Some (NODE_COLORS !! cat).
Proof.
  intros H. apply list_elem_of_In in H. cbn in H.
  repeat (destruct H as [<-|H]; [vm_compute; eexists; reflexivity|]). destruct H.
Qed.

Section NodePositions.
Variable YEARS : list Z.
Hypothesis YEARS_NoDup : NoDup YEARS.

Lemma buildNodes_nodes : nt_nodes (buildNodes YEARS) = allKeys YEARS.
Proof.
  rewrite (ok_nodes _ _ (buildNodes_ok YEARS)).
  apply uniq_NoDup_id, allKeys_NoDup, YEARS_NoDup.
Qed.

Lemma buildNodes_colors :
  nt_node_colors (buildNodes YEARS)
  = ((fun p => default "rgba(150,150,150,0.85)" (NODE_COLORS !! snd p))
       <$> allPairs YEARS).
Proof.
  rewrite buildNodes_flat.
  apply (foldl_addNode_table (allPairs YEARS)), allKeys_NoDup, YEARS_NoDup.
Qed.

Lemma buildNodes_at (i j : nat) (y : Z) (cat : string) :
  YEARS !! i = Some y -> CAT_ORDER !! j = Some cat ->
  nt_nodes (buildNodes YEARS) !! (7 * i + j)%nat = Some (nodeKey y cat)
  /\ nt_node_id (buildNodes YEARS) !! nodeKey y cat = Some (7 * i + j)%nat
  /\ nt_node_colors (buildNodes YEARS) !! (7 * i + j)%nat = NODE_COLORS !! cat.
Proof.
  intros Hy Hc. pose proof (allPairs_lookup YEARS i j y cat Hy Hc) as Hp.
  assert (Hn : nt_nodes (buildNodes YEARS) !! (7 * i + j)%nat
               = Some (nodeKey y cat)).
  { rewrite buildNodes_nodes. unfold allKeys.
    rewrite list_lookup_fmap, Hp. reflexivity. }
  split; [exact Hn|].
  split; [apply (ok_ids _ _ (buildNodes_ok YEARS)), Hn|].
  rewrite buildNodes_colors, list_lookup_fmap, Hp. cbn.
  destruct (NODE_COLORS_defined cat) as [c Hcol];
    [eapply list_elem_of_lookup_2; exact Hc|].
  rewrite Hcol. reflexivity.
Qed.
End NodePositions.

(** X9: the node table of a run that succeeds.  The nodes are the labels
    of all pairs of a grid year and a category, year by year and inside a
    year in the order of [CAT_ORDER], without repetition: seven nodes
    for every grid year, the node of the i-th year and the j-th category
    at position 7 i + j.  The colour at that position is the colour of
    the category in [NODE_COLORS]; the fallback colour is never used. *)
Theorem node_table_positions (mergedSnap : list Weighted) (g : SankeyData) :
  buildSankey mergedSnap = inr g ->
  let YEARS := yearGrid mergedSnap in
  nodes g = allKeys YEARS
  /\ NoDup (nodes g)
  /\ length (nodes g) = (7 * length YEARS)%nat
  /\ forall (i j : nat) (y : Z) (cat : string),
       YEARS !! i = Some y -> CAT_ORDER !! j = Some cat ->
       nodes g !! (7 * i + j)%nat = Some (nodeKey y cat)
       /\ node_colors g !! (7 * i + j)%nat = NODE_COLORS !! cat
       /\ is_Some (NODE_COLORS !! cat).
Proof.
  intros Hrun YEARS.
  apply buildSankey_inr in Hrun as (_ & _ & Hn & Hc & _).
  pose proof (yearGrid_NoDup mergedSnap) as Hnd. fold YEARS in Hn, Hc, Hnd.
  rewrite Hn, Hc, (buildNodes_nodes YEARS Hnd).
  split; [reflexivity|].
  split; [apply allKeys_NoDup, Hnd|].
  split; [unfold allKeys; rewrite length_fmap; apply allPairs_length|].
  intros i j y cat Hy Hcat.
  destruct (buildNodes_at YEARS Hnd i j y cat Hy Hcat) as (H1 & _ & H3).
  rewrite (buildNodes_nodes YEARS Hnd) in H1.
  split; [exact H1|]. split; [exact H3|].
  apply NODE_COLORS_defined. eapply list_elem_of_lookup_2. exact Hcat.
Qed.

Lemma node_table_positions_witness :
  exists g, buildSankey scenario = inr g
            /\ length (nodes g) = 14%nat
            /\ nodes g !! 13%nat = Some "2024: Exit"
            /\ node_colors g !! 13%nat = Some "rgba(120,120,120,0.75)".
Proof.
  assert (H : exists g, buildSankey scenario = inr g).
  { vm_compute. eexists. reflexivity. }
  destruct H as (g & Hrun). exists g. split; [exact Hrun|].
  destruct (node_table_positions scenario g Hrun) as (_ & _ & Hlen & Hat).
  split; [exact Hlen|].
  destruct (Hat 1%nat 6%nat 2024%Z EXIT_LABEL eq_refl eq_refl) as (H1 & H2 & _).
  split; [exact H1|exact H2].
Defined.

(* ------------------------------------------------------------------ *)
(** ** Links run forward *)

(** A bucket label is one of the first six categories. *)
Lemma label_index (cat : string) :
  cat ∈ (name <$> OWN_BUCKETS) ++ [UNKNOWN_LABEL] ->
  exists j : nat, (j < 6)%nat /\ CAT_ORDER !! j = Some cat.
Proof.
  intros H. apply list_elem_of_lookup_1 in H as [j Hj]. exists j.
  pose proof (lookup_lt_Some _ _ _ Hj) as Hlt.
  split; [exact Hlt|].
  change CAT_ORDER with (((name <$> OWN_BUCKETS) ++ [UNKNOWN_LABEL]) ++ [EXIT_LABEL]).
  rewrite lookup_app_l by exact Hlt. exact Hj.
Qed.

Lemma bucket_label (r : Weighted) :
  bucket r ∈ (name <$> OWN_BUCKETS) ++ [UNKNOWN_LABEL].
Proof. apply getBucket_label. Qed.

(** A row of the flow table belongs to one step of the grid; it joins two
    bucket labels over the step, or leads from a bucket label to [Exit]
    inside the first year of the step. *)
Lemma linkRow_step (mergedSnap : list Weighted) (YEARS : list Z) (l : LinkRow) :
  l ∈ buildLinkRows mergedSnap YEARS ->
  exists (i : nat) (y0 y1 : Z),
    YEARS !! i = Some y0 /\ YEARS !! S i = Some y1
    /\ level_from l = y0
    /\ cat_from l ∈ (name <$> OWN_BUCKETS) ++ [UNKNOWN_LABEL]
    /\ ((flow_type l = active /\ level_to l = y1
         /\ cat_to l ∈ (name <$> OWN_BUCKETS) ++ [UNKNOWN_LABEL])
        \/ (flow_type l = exit /\ level_to l = y0 /\ cat_to l = EXIT_LABEL)).
Proof.
  intros Hl. apply elem_of_buildLinkRows in Hl as ([y0 y1] & Hy & Hl).
  apply steps_lookup in Hy as (i & H0 & H1). exists i, y0, y1.
  split; [exact H0|]. split; [exact H1|]. cbn [fst snd] in Hl.
  destruct Hl as [Hl|Hl].
  - unfold activeRows in Hl.
    apply list_elem_of_fmap in Hl as (g & -> & Hg). cbn.
    apply groupby_elem_of in Hg as [Hk _].
    apply list_elem_of_fmap in Hk as (p & -> & _). cbn.
    split; [reflexivity|]. split; [apply bucket_label|].
    left. split; [reflexivity|]. split; [reflexivity|apply bucket_label].
  - unfold exitRows in Hl.
    apply list_elem_of_fmap in Hl as (g & -> & Hg). cbn.
    apply groupby_elem_of in Hg as [Hk _].
    apply list_elem_of_fmap in Hk as (r & -> & _).
    split; [reflexivity|]. split; [apply bucket_label|].
    right. auto.
Qed.

(** X10: every link of a run that succeeds runs forward in the node
    list.  Its source is a node of a bucket (not [Exit]) in some grid
    year; a green link is an active flow and ends in a bucket node of
    the next grid year, a red link is an exit flow and ends in the
    [Exit] node of the same year.  So the source index is always below
    the target index: the graph has no loop and no cycle. *)
Theorem links_run_forward (mergedSnap : list Weighted) (g : SankeyData)
    (l : SankeyLink) :
  buildSankey mergedSnap = inr g ->
  l ∈ links g ->
  let YEARS := yearGrid mergedSnap in
  exists (i j : nat),
    (S i < length YEARS)%nat /\ (j < 6)%nat
    /\ source l = Some (7 * i + j)%nat
    /\ ((color l = GREEN
         /\ exists j' : nat, (j' < 6)%nat /\ target l = Some (7 * S i + j')%nat)
        \/ (color l = RED /\ target l = Some (7 * i + 6)%nat))
    /\ (forall s t, source l = Some s -> target l = Some t -> (s < t)%nat).
Proof.
  intros Hrun Hl YEARS.
  apply buildSankey_inr in Hrun as (_ & _ & _ & _ & _ & Hls & _).
  pose proof (yearGrid_NoDup mergedSnap) as Hnd. fold YEARS in Hls, Hnd.
  rewrite Hls in Hl. unfold buildLinks in Hl.
  apply list_elem_of_fmap in Hl as (row & -> & Hrow).
  apply linkRow_step in Hrow
    as (i & y0 & y1 & H0 & H1 & Hf & Hcf & Hkind).
  apply label_index in Hcf as (j & Hj & Hcj).
  exists i, j. cbn [source target color buildLink].
  split; [apply lookup_lt_Some in H1; exact H1|]. split; [exact Hj|].
  assert (Hs : nt_node_id (buildNodes YEARS) !! nodeKey (level_from row) (cat_from row)
               = Some (7 * i + j)%nat).
  { rewrite Hf. apply (buildNodes_at YEARS Hnd i j y0 _ H0 Hcj). }
  rewrite Hs. split; [reflexivity|].
  destruct Hkind as [(Hty & Ht & Hct)|(Hty & Ht & Hct)]; rewrite Hty.
  - apply label_index in Hct as (j' & Hj' & Hcj').
    assert (Htg : nt_node_id (buildNodes YEARS) !! nodeKey (level_to row) (cat_to row)
                  = Some (7 * S i + j')%nat).
    { rewrite Ht. apply (buildNodes_at YEARS Hnd (S i) j' y1 _ H1 Hcj'). }
    rewrite Htg. split.
    + left. split; [reflexivity|]. exists j'. auto.
    + intros s t [= <-] [= <-]. lia.
  - assert (Htg : nt_node_id (buildNodes YEARS) !! nodeKey (level_to row) (cat_to row)
                  = Some (7 * i + 6)%nat).
    { rewrite Ht, Hct.
      apply (buildNodes_at YEARS Hnd i 6 y0 EXIT_LABEL H0 eq_refl). }
    rewrite Htg. split.
    + right. auto.
    + intros s t [= <-] [= <-]. lia.
Qed.

Lemma links_run_forward_witness :
  exists g l, buildSankey scenario = inr g /\ links g !! 2%nat = Some l
              /\ color l = RED /\ source l = Some 4%nat /\ target l = Some 6%nat.
Proof.
  assert (H : exists g l,
             buildSankey scenario = inr g /\ links g !! 2%nat = Some l
             /\ color l = RED /\ source l = Some 4%nat).
  { vm_compute. eexists. eexists. repeat split; reflexivity. }
  destruct H as (g & l & Hrun & Hl & Hc & Hs).
  exists g, l. split; [exact Hrun|]. split; [exact Hl|].
  split; [exact Hc|]. split; [exact Hs|].
  destruct (links_run_forward scenario g l Hrun (list_elem_of_lookup_2 _ _ _ Hl))
    as (i & j & _ & _ & Hsrc & Hkind & _).
  rewrite Hs in Hsrc. injection Hsrc as Hsrc.
  destruct Hkind as [[Hg _]|[_ Ht]].
  - rewrite Hc in Hg. vm_compute in Hg. discriminate Hg.
  - rewrite Ht. f_equal. lia.
Defined.

(* ------------------------------------------------------------------ *)
(** ** No two links join the same nodes *)

Lemma fmap_bind_list {A B C : Type} (f : B -> C) (g : A -> list B) (L : list A) :
  f <$> (L ≫= g) = L ≫= (fun a => f <$> g a).
Proof.
  induction L as [|a L IH]; [reflexivity|].
  rewrite !bind_cons, fmap_app, IH. reflexivity.
Qed.

Lemma NoDup_fmap_eq {A B : Type} (f : A -> B) (l : list A) (x y : A) :
  NoDup (f <$> l) -> x ∈ l -> y ∈ l -> f x = f y -> x = y.
Proof.
  intros Hnd Hx Hy E.
  apply list_elem_of_lookup_1 in Hx as [i Hi].
  apply list_elem_of_lookup_1 in Hy as [j Hj].
  assert (i = j).
  { apply (NoDup_lookup (f <$> l) i j (f x) Hnd);
      rewrite list_lookup_fmap; [rewrite Hi|rewrite Hj, E]; reflexivity. }
  subst j. congruence.
Qed.

(** The place of a row of the flow table: its two end years and its two
    end categories. *)
Lemma activeRows_places_NoDup (mergedSnap : list Weighted) (y0 y1 : Z) :
  NoDup ((fun l => (level_from l, level_to l, cat_from l, cat_to l))
           <$> activeRows mergedSnap y0 y1).
Proof.
  unfold activeRows. rewrite <- list_fmap_compose.
  set (both := filter complete _).
  assert (E : forall gs : list (string * string * list (Weighted * Weighted)),
            ((fun l => (level_from l, level_to l, cat_from l, cat_to l))
               ∘ (fun g => mkLinkRow (fst (fst g)) (snd (fst g))
                             (osum ((fun p => w_t (fst p)) <$> snd g))
                             (length (snd g))
                             (osum ((fun p => w_raw (fst p)) <$> snd g))
                             y0 y1 active)) <$> gs
            = (fun k : string * string => (y0, y1, fst k, snd k)) <$> (fst <$> gs)).
  { intros gs. rewrite <- list_fmap_compose. reflexivity. }
  rewrite E, groupby_keys.
  apply NoDup_fmap_2_strong; [|apply uniq_NoDup].
  intros [a b] [a' b'] _ _ [= -> ->]. reflexivity.
Qed.

Lemma exitRows_places_NoDup (mergedSnap : list Weighted) (y0 y1 : Z) :
  NoDup ((fun l => (level_from l, level_to l, cat_from l, cat_to l))
           <$> exitRows mergedSnap y0 y1).
Proof.
  unfold exitRows. rewrite <- list_fmap_compose.
  set (exits := leftOnly _ _).
  assert (E : forall gs : list (string * list Weighted),
            ((fun l => (level_from l, level_to l, cat_from l, cat_to l))
               ∘ (fun g => mkLinkRow (fst g) EXIT_LABEL
                             (osum (w_t <$> snd g))
                             (length (snd g))
                             (osum (w_raw <$> snd g))
                             y0 y0 exit)) <$> gs
            = (fun k : string => (y0, y0, k, EXIT_LABEL)) <$> (fst <$> gs)).
  { intros gs. rewrite <- list_fmap_compose. reflexivity. }
  rewrite E, groupby_keys.
  apply NoDup_fmap_2_strong; [|apply uniq_NoDup].
  intros a a' _ _ [= ->]. reflexivity.
Qed.

Lemma linkRows_places_NoDup (mergedSnap : list Weighted) :
  NoDup ((fun l => (level_from l, level_to l, cat_from l, cat_to l))
           <$> buildLinkRows mergedSnap (yearGrid mergedSnap)).
Proof.
  pose proof (yearGrid_NoDup mergedSnap) as Hnd.
  set (YEARS := yearGrid mergedSnap) in *.
  unfold buildLinkRows. rewrite fmap_bind_list.
  apply NoDup_bind.
  - intros [a b] [a' b'] k Hp Hp' Hk Hk'.
    assert (Hfrom : forall (p : Z * Z) l, l ∈ stepRows mergedSnap p ->
                      level_from l = fst p).
    { intros p l Hl. unfold stepRows in Hl. apply elem_of_app in Hl as [Hl|Hl].
      - apply elem_of_activeRows in Hl. tauto.
      - apply elem_of_exitRows in Hl. tauto. }
    apply list_elem_of_fmap in Hk as (l & -> & Hl).
    apply list_elem_of_fmap in Hk' as (l' & [= E _ _ _] & Hl').
    apply Hfrom in Hl, Hl'. cbn in Hl, Hl'.
    assert (Ea : a' = a) by congruence. rewrite Ea in Hp' |- *.
    apply steps_lookup in Hp as (i & H0 & H1).
    f_equal. symmetry. exact (steps_functional YEARS i a b b' Hnd H0 H1 Hp').
  - intros [y0 y1] Hp. unfold stepRows. rewrite fmap_app.
    apply NoDup_app. split; [apply activeRows_places_NoDup|].
    split; [|apply exitRows_places_NoDup].
    intros k Hk Hk'.
    apply list_elem_of_fmap in Hk as (l & -> & Hl).
    apply list_elem_of_fmap in Hk' as (l' & [= _ E _ _] & Hl').
    apply elem_of_activeRows in Hl as (_ & _ & Hl).
    apply elem_of_exitRows in Hl' as (_ & _ & Hl' & _).
    cbn [fst snd] in *.
    apply steps_lookup in Hp as (i & H0 & H1).
    assert (i = S i) by (apply (NoDup_lookup YEARS i (S i) y0 Hnd); congruence).
    lia.
  - apply (NoDup_fmap_1 fst), steps_fst_NoDup, Hnd.
Qed.

(** X11: in a run that succeeds no two links join the same pair of
    nodes: the flows of a step are aggregated, so that two nodes are
    joined by one link at most. *)
Theorem no_parallel_links (mergedSnap : list Weighted) (g : SankeyData) :
  buildSankey mergedSnap = inr g ->
  NoDup ((fun l => (source l, target l)) <$> links g).
Proof.
  intros Hrun.
  apply buildSankey_inr in Hrun as (_ & _ & _ & _ & _ & Hls & _).
  pose proof (yearGrid_NoDup mergedSnap) as Hnd.
  pose proof (linkRows_places_NoDup mergedSnap) as Hplaces.
  set (YEARS := yearGrid mergedSnap) in *.
  set (rows := buildLinkRows mergedSnap YEARS) in *.
  rewrite Hls. unfold buildLinks. rewrite <- list_fmap_compose.
  apply NoDup_fmap_2_strong; [|exact (NoDup_fmap_1 _ _ Hplaces)].
  intros r r' Hr Hr' E. cbn in E. injection E as Es Et.
  apply (NoDup_fmap_eq _ rows r r' Hplaces Hr Hr').
  pose proof (linkRow_endpoints _ _ _ Hr) as (Hf & Ht & Hcf & Hct).
  pose proof (linkRow_endpoints _ _ _ Hr') as (Hf' & Ht' & Hcf' & Hct').
  assert (Hkey : forall y c y' c',
            y ∈ YEARS -> c ∈ CAT_ORDER -> y' ∈ YEARS -> c' ∈ CAT_ORDER ->
            nt_node_id (buildNodes YEARS) !! nodeKey y c
            = nt_node_id (buildNodes YEARS) !! nodeKey y' c' ->
            y = y' /\ c = c').
  { intros y c y' c' Hy Hc Hy' Hc' E.
    destruct (buildNodes_lookup YEARS y c Hy Hc) as (n & Hn & Hk & _).
    destruct (buildNodes_lookup YEARS y' c' Hy' Hc') as (n' & Hn' & Hk' & _).
    rewrite Hn, Hn' in E. injection E as <-.
    apply nodeKey_inj; [assumption..|congruence]. }
  destruct (Hkey _ _ _ _ Hf Hcf Hf' Hcf' Es) as [-> ->].
  destruct (Hkey _ _ _ _ Ht Hct Ht' Hct' Et) as [-> ->].
  reflexivity.
Qed.

Lemma no_parallel_links_witness :
  exists g, buildSankey scenario = inr g
            /\ NoDup ((fun l => (source l, target l)) <$> links g).
Proof.
  assert (H : exists g, buildSankey scenario = inr g).
  { vm_compute. eexists. reflexivity. }
  destruct H as (g & Hrun). exists g. split; [exact Hrun|].
  apply (no_parallel_links scenario g Hrun).
Defined.

(* ------------------------------------------------------------------ *)
(** ** The values of a link *)

Lemma osum_nonneg (l : list (option Q)) (t : Q) :
  (forall x, Some x ∈ l -> 0 <= x) -> osum l = Some t ->
  0 <= t /\ (forall c, c ∈ l -> is_Some c) /\ (forall x, Some x ∈ l -> x <= t).
Proof.
  revert t. induction l as [|c l IH]; intros t Hpos Hsum.
  - cbn in Hsum. injection Hsum as <-.
    split; [lra|]. split; intros x Hx; inversion Hx.
  - rewrite osum_cons in Hsum.
    destruct c as [x|]; [|discriminate Hsum].
    destruct (osum l) as [t'|] eqn:E; [|discriminate Hsum].
    cbn in Hsum. injection Hsum as <-.
    destruct (IH t') as (Ht' & Hall & Hle);
      [intros y Hy; apply Hpos; right; exact Hy | reflexivity |].
    pose proof (Hpos x ltac:(left)) as Hx.
    split; [lra|]. split.
    + intros c Hc. apply elem_of_cons in Hc as [->|Hc]; [eexists; reflexivity|].
      apply Hall, Hc.
    + intros y Hy. apply elem_of_cons in Hy as [[= ->]|Hy]; [lra|].
      specialize (Hle y Hy). lra.
Qed.

Lemma mergeInner_elem_of (s0 s1 : list Weighted) (p : Weighted * Weighted) :
  p ∈ mergeInner s0 s1 <->
  fst p ∈ s0 /\ snd p ∈ s1 /\ m_REGN (snd p) = m_REGN (fst p).
Proof.
  unfold mergeInner. rewrite list_elem_of_bind. split.
  - intros (l & Hp & Hl). apply list_elem_of_fmap in Hp as (r & -> & Hr).
    apply list_elem_of_filter in Hr as [He Hr]. cbn. auto.
  - intros (H0 & H1 & He). exists (fst p). split; [|exact H0].
    apply list_elem_of_fmap. exists (snd p).
    split; [destruct p; reflexivity|]. apply list_elem_of_filter. auto.
Qed.

(** The rows a row of the flow table aggregates. *)
Lemma linkRow_sources (mergedSnap : list Weighted) (YEARS : list Z) (row : LinkRow) :
  row ∈ buildLinkRows mergedSnap YEARS ->
  exists rs : list Weighted,
    (forall r, r ∈ rs -> r ∈ mergedSnap)
    /\ weight row = osum (w_t <$> rs)
    /\ raw_sum row = osum (w_raw <$> rs)
    /\ count row = length rs
    /\ rs <> []
    /\ (flow_type row = active -> Forall weighed rs).
Proof.
  intros Hrow. apply elem_of_buildLinkRows in Hrow as ([y0 y1] & _ & [Hl|Hl]);
    cbn [fst snd] in Hl.
  - unfold activeRows in Hl.
    apply list_elem_of_fmap in Hl as (g & -> & Hg). cbn.
    pose proof (groupby_nonempty _ _ _ Hg) as Hne.
    apply groupby_elem_of in Hg as [_ Hs].
    exists (fst <$> snd g).
    assert (Hin : forall p, p ∈ snd g ->
              fst p ∈ mergedSnap /\ weighed (fst p)).
    { intros p Hp. rewrite Hs in Hp.
      apply list_elem_of_filter in Hp as [_ Hp].
      apply list_elem_of_filter in Hp as [Hc Hp].
      apply mergeInner_elem_of in Hp as (Hp & _ & _).
      apply list_elem_of_filter in Hp as [_ Hp]. split; [exact Hp|exact Hc]. }
    split.
    { intros r Hr. apply list_elem_of_fmap in Hr as (p & -> & Hp).
      apply Hin, Hp. }
    rewrite <- !list_fmap_compose, length_fmap.
    split; [reflexivity|]. split; [reflexivity|]. split; [reflexivity|].
    split; [intros E; apply fmap_nil_inv in E; contradiction|].
    intros _. apply Forall_fmap, Forall_forall. intros p Hp. apply Hin, Hp.
  - unfold exitRows in Hl.
    apply list_elem_of_fmap in Hl as (g & -> & Hg). cbn.
    pose proof (groupby_nonempty _ _ _ Hg) as Hne.
    apply groupby_elem_of in Hg as [_ Hs].
    exists (snd g). split.
    { intros r Hr. rewrite Hs in Hr.
      apply list_elem_of_filter in Hr as [_ Hr]. unfold leftOnly in Hr.
      apply list_elem_of_filter in Hr as [_ Hr].
      apply list_elem_of_filter in Hr as [_ Hr]. exact Hr. }
    split; [reflexivity|]. split; [reflexivity|]. split; [reflexivity|].
    split; [exact Hne|]. discriminate.
Qed.

Lemma linkRow_weight_nonneg (mergedSnap : list Weighted) (YEARS : list Z)
    (row : LinkRow) :
  (forall r, r ∈ mergedSnap ->
     (forall x, w_t r = Some x -> 0 <= x) /\ (forall x, w_raw r = Some x -> 0 <= x)) ->
  row ∈ buildLinkRows mergedSnap YEARS ->
  (forall w, weight row = Some w -> 0 <= w)
  /\ (forall w, raw_sum row = Some w -> 0 <= w)
  /\ (flow_type row = active -> is_Some (weight row) /\ is_Some (raw_sum row)).
Proof.
  intros Hpos Hrow.
  apply linkRow_sources in Hrow as (rs & Hin & -> & -> & _ & _ & Hact).
  split; [|split].
  - intros w Hw. apply osum_nonneg in Hw as [Hw _]; [exact Hw|].
    intros x Hx. apply list_elem_of_fmap in Hx as (r & E & Hr).
    symmetry in E. exact (proj1 (Hpos r (Hin r Hr)) x E).
  - intros w Hw. apply osum_nonneg in Hw as [Hw _]; [exact Hw|].
    intros x Hx. apply list_elem_of_fmap in Hx as (r & E & Hr).
    symmetry in E. exact (proj2 (Hpos r (Hin r Hr)) x E).
  - intros Ha. specialize (Hact Ha). rewrite Forall_forall in Hact.
    split; (rewrite osum_all_Some; [eexists; reflexivity|]);
      apply Forall_fmap, Forall_forall; intros r Hr; apply (Hact r Hr).
Qed.

Lemma shareOf_range (rows : list LinkRow) (row : LinkRow) :
  (forall r, r ∈ rows -> forall w, weight r = Some w -> 0 <= w) ->
  row ∈ rows -> 0 <= shareOf rows row <= 100.
Proof.
  intros Hpos Hrow. unfold shareOf, share, step_total.
  destruct (osum _) as [t|] eqn:Et; [|cbn; lra].
  destruct (Qltb EPS_TOTAL t) eqn:E; [|cbn; lra].
  apply Qltb_lt in E. unfold EPS_TOTAL in E.
  destruct (weight row) as [w|] eqn:Ew; [|cbn; lra].
  apply osum_nonneg in Et as (_ & _ & Hle).
  - assert (Hw : w <= t).
    { apply Hle. apply list_elem_of_fmap. exists row. split; [auto|].
      apply list_elem_of_filter. auto. }
    pose proof (Hpos row Hrow w Ew) as Hw0. cbn.
    assert (H1 : 0 <= w / t) by (apply Qle_shift_div_l; lra).
    assert (H2 : w / t <= 1) by (apply Qle_shift_div_r; lra).
    lra.
  - intros x Hx. apply list_elem_of_fmap in Hx as (r & E' & Hr).
    apply list_elem_of_filter in Hr as [_ Hr]. symmetry in E'.
    exact (Hpos r Hr x E').
Qed.

(** X13: the values of the links of a run of the pipeline.  Whatever
    values the logarithm takes, the share of every link lies between 0
    and 100, its absolute value (the weight sum over 1e9) is not negative
    when it is defined, and it is defined for every green link; the hover
    data of a link are its share and its raw sum over 1e9, which is not
    negative. *)
Theorem link_values_in_range (ln : Q -> Q) (table : Table) (g : SankeyData)
    (l : SankeyLink) :
  processParquetData ln table = inr g ->
  l ∈ links g ->
  0 <= value_share l <= 100
  /\ (forall v, value_abs l = Some v -> 0 <= v)
  /\ (color l = GREEN -> is_Some (value_abs l))
  /\ exists raw_abs : Q, customdata l = [value_share l; raw_abs] /\ 0 <= raw_abs.
Proof.
  intros Hrun Hl. apply processParquetData_inr in Hrun as [_ Hrun].
  apply buildSankey_inr in Hrun as (_ & _ & _ & _ & _ & Hls & _).
  rewrite Hls in Hl. unfold buildLinks in Hl.
  apply list_elem_of_fmap in Hl as (row & -> & Hrow).
  set (mergedSnap := prepare ln table) in *.
  assert (Hpos : forall r, r ∈ mergedSnap ->
            (forall x, w_t r = Some x -> 0 <= x)
            /\ (forall x, w_raw r = Some x -> 0 <= x)).
  { intros r Hr.
    destruct (prepare_weight_cells ln table r Hr) as (_ & _ & H1 & H2 & _).
    split; assumption. }
  destruct (linkRow_weight_nonneg mergedSnap _ row Hpos Hrow) as (Hw & Hraw & Hact).
  cbn [value_share value_abs color customdata buildLink].
  split.
  { apply shareOf_range; [|exact Hrow].
    intros r Hr. apply (linkRow_weight_nonneg mergedSnap _ r Hpos Hr). }
  assert (Hscale : forall v x, divScale v = Some x ->
                     (forall w, v = Some w -> 0 <= w) -> 0 <= x).
  { intros [w|] x; cbn; [|discriminate]. intros [= <-] Hv.
    specialize (Hv w eq_refl). unfold UNIT_SCALE.
    apply Qle_shift_div_l; lra. }
  split; [intros v Hv; exact (Hscale _ _ Hv Hw)|].
  split.
  { destruct (flow_type row) eqn:Ety; [|intros H; vm_compute in H; discriminate H].
    intros _. destruct (Hact eq_refl) as [[w Ew] _]. rewrite Ew.
    eexists. reflexivity. }
  eexists. split; [reflexivity|].
  destruct (divScale (raw_sum row)) as [x|] eqn:E; cbn; [|lra].
  exact (Hscale _ _ E Hraw).
Qed.

Lemma link_values_in_range_witness :
  exists g l, processParquetData lnApprox table_scenario = inr g
              /\ links g !! 0%nat = Some l
              /\ 0 <= value_share l <= 100.
Proof.
  assert (H : exists g l,
             processParquetData lnApprox table_scenario = inr g
             /\ links g !! 0%nat = Some l).
  { vm_compute. eexists. eexists. split; reflexivity. }
  destruct H as (g & l & Hrun & Hl). exists g, l.
  split; [exact Hrun|]. split; [exact Hl|].
  apply (link_values_in_range lnApprox table_scenario g l Hrun
           (list_elem_of_lookup_2 _ _ _ Hl)).
Defined.

(* ------------------------------------------------------------------ *)
(** ** The x coordinates: one column for every grid year *)

Lemma foldl_insert_other {V : Type} (f : Z * nat -> V) (L : list (Z * nat))
    (acc : gmap Z V) (k : Z) :
  k ∉ fst <$> L ->
  foldl (fun acc yi => <[fst yi := f yi]> acc) acc L !! k = acc !! k.
Proof.
  revert acc. induction L as [|[k0 i0] L IH]; intros acc Hk; [reflexivity|].
  cbn [foldl]. rewrite IH.
  - apply lookup_insert_ne. cbn [fst]. intros ->. apply Hk. cbn. left.
  - intros H. apply Hk. cbn. right. exact H.
Qed.

Lemma foldl_insert_lookup {V : Type} (f : Z * nat -> V) (L : list (Z * nat))
    (acc : gmap Z V) (k : Z) (i : nat) :
  NoDup (fst <$> L) -> (k, i) ∈ L ->
  foldl (fun acc yi => <[fst yi := f yi]> acc) acc L !! k = Some (f (k, i)).
Proof.
  revert acc. induction L as [|[k0 i0] L IH]; intros acc Hnd Hin;
    [inversion Hin|].
  cbn [fmap list_fmap fst] in Hnd. apply NoDup_cons in Hnd as [Hk0 Hnd].
  cbn [foldl]. apply elem_of_cons in Hin as [[= -> ->]|Hin].
  - rewrite foldl_insert_other by exact Hk0. apply lookup_insert_eq.
  - apply IH; assumption.
Qed.

Lemma xposOf_lookup (YEARS : list Z) (i : nat) (y : Z) :
  NoDup YEARS -> YEARS !! i = Some y ->
  xposOf YEARS !! y
  = Some (LEFT_MARGIN
          + inject_Z (Z.of_nat i)
            * ((1 - LEFT_MARGIN - RIGHT_MARGIN)
               / inject_Z (Z.of_nat (length YEARS - 1)))).
Proof.
  intros Hnd Hy. unfold xposOf.
  apply (foldl_insert_lookup
           (fun yi => LEFT_MARGIN
                      + inject_Z (Z.of_nat (snd yi))
                        * ((1 - LEFT_MARGIN - RIGHT_MARGIN)
                           / inject_Z (Z.of_nat (length YEARS - 1))))
           _ ∅ y i).
  - rewrite fst_zip by (rewrite length_seq; lia). exact Hnd.
  - apply (list_elem_of_lookup_2 _ i).
    rewrite lookup_zip_with, Hy. cbn.
    rewrite lookup_seq_lt by (apply lookup_lt_Some in Hy; exact Hy). reflexivity.
Qed.

Lemma nodeX_nodeKey (xpos : gmap Z Q) (y : Z) (cat : string) (x : Q) :
  cat ∈ CAT_ORDER -> xpos !! y = Some x ->
  nodeX xpos (nodeKey y cat)
  = Some (x + (if decide (cat = EXIT_LABEL) then EPS_EXIT else 0)).
Proof.
  intros Hc Hx. unfold nodeX. rewrite split_nodeKey by exact Hc.
  cbn [lookup list_lookup default from_option id].
  rewrite parseInt_pretty. cbn [mbind option_bind]. rewrite Hx.
  destruct (decide (cat = EXIT_LABEL)) as [->|Hne]; [reflexivity|].
  apply String.eqb_neq in Hne. rewrite Hne. reflexivity.
Qed.

(** X12: every node of a run that succeeds has an x coordinate.  The
    year read back from the label of a node ([parseInt] of the part
    before ": ") is a key of [xpos], so that the coordinate is a number
    and not NaN; and the six bucket nodes of a grid year, to which 0 is
    added, have the coordinate of the year, the same for all six. *)
Theorem xs_defined_by_column (mergedSnap : list Weighted) (g : SankeyData)
    (i j : nat) (y : Z) (cat : string) :
  buildSankey mergedSnap = inr g ->
  let YEARS := yearGrid mergedSnap in
  YEARS !! i = Some y -> CAT_ORDER !! j = Some cat ->
  is_Some (xposOf YEARS !! y)
  /\ (exists x : Q, xs g !! (7 * i + j)%nat = Some (Some x))
  /\ (cat <> EXIT_LABEL ->
      xs g !! (7 * i + j)%nat = Some (xposOf YEARS !! y)
      /\ forall (j' : nat) (cat' : string),
           CAT_ORDER !! j' = Some cat' -> cat' <> EXIT_LABEL ->
           xs g !! (7 * i + j')%nat = xs g !! (7 * i + j)%nat).
Proof.
  intros Hrun YEARS Hy Hc.
  apply buildSankey_inr in Hrun as (_ & _ & _ & _ & Hx & _).
  pose proof (yearGrid_NoDup mergedSnap) as Hnd. fold YEARS in Hx, Hnd.
  pose proof (xposOf_lookup YEARS i y Hnd Hy) as Hpos.
  assert (Hat : forall (k : nat) (c : string),
            CAT_ORDER !! k = Some c ->
            xs g !! (7 * i + k)%nat
            = Some (nodeX (xposOf YEARS) (nodeKey y c))).
  { intros k c Hk.
    destruct (buildNodes_at YEARS Hnd i k y c Hy Hk) as (Hn & _ & _).
    rewrite Hx, list_lookup_fmap, Hn. reflexivity. }
  assert (Hbucket : forall (k : nat) (c : string),
            CAT_ORDER !! k = Some c -> c <> EXIT_LABEL ->
            xs g !! (7 * i + k)%nat = Some (xposOf YEARS !! y)).
  { intros k c Hk Hne. rewrite (Hat k c Hk). f_equal.
    rewrite (nodeX_nodeKey _ y c _ (list_elem_of_lookup_2 _ _ _ Hk) Hpos).
    rewrite decide_False by exact Hne. rewrite Hpos. f_equal.
    unfold Qplus. cbn. rewrite Z.mul_1_r, Z.add_0_r, Pos.mul_1_r.
    reflexivity. }
  split; [rewrite Hpos; eexists; reflexivity|].
  split.
  - eexists. rewrite (Hat j cat Hc). f_equal.
    apply (nodeX_nodeKey _ y cat _ (list_elem_of_lookup_2 _ _ _ Hc) Hpos).
  - intros Hne. split; [exact (Hbucket j cat Hc Hne)|].
    intros j' cat' Hc' Hne'.
    rewrite (Hbucket j cat Hc Hne), (Hbucket j' cat' Hc' Hne'). reflexivity.
Qed.

Lemma xs_defined_by_column_witness :
  exists g x, buildSankey scenario = inr g
              /\ xs g !! 13%nat = Some (Some x)
              /\ xs g !! 7%nat = xs g !! 12%nat.
Proof.
  assert (H : exists g, buildSankey scenario = inr g).
  { vm_compute. eexists. reflexivity. }
  destruct H as (g & Hrun).
  destruct (xs_defined_by_column scenario g 1 6 2024 EXIT_LABEL Hrun eq_refl eq_refl)
    as (_ & (x & Hx) & _).
  destruct (xs_defined_by_column scenario g 1 5 2024 UNKNOWN_LABEL Hrun eq_refl eq_refl)
    as (_ & _ & Hsame).
  exists g, x. split; [exact Hrun|]. split; [exact Hx|].
  destruct Hsame as [_ Hsame]; [discriminate|].
  apply (Hsame 0%nat "State ≥50%" eq_refl). discriminate.
Defined.

(* ------------------------------------------------------------------ *)
(** ** The columns of the layout *)

Lemma filter_none {A : Type} (P : A -> Prop) `{!forall x, Decision (P x)}
    (l : list A) :
  (forall x, x ∈ l -> ~ P x) -> filter P l = [].
Proof.
  induction l as [|x l IH]; intros Hall; [reflexivity|].
  rewrite filter_cons_False by (apply Hall; left).
  apply IH. intros y Hy. apply Hall. right. exact Hy.
Qed.

(** *** Sorting by another comparison *)

Lemma insert_ext {A : Type} (le1 le2 : A -> A -> bool) (x : A) (l : list A) :
  (forall b, b ∈ l -> le1 x b = le2 x b) -> insert le1 x l = insert le2 x l.
Proof.
  induction l as [|y l IH]; intros Hext; [reflexivity|].
  cbn [insert]. rewrite (Hext y) by left.
  rewrite IH by (intros b Hb; apply Hext; right; exact Hb). reflexivity.
Qed.

Lemma sortBy_ext_in {A : Type} (le1 le2 : A -> A -> bool) (l : list A) :
  (forall a b, a ∈ l -> b ∈ l -> le1 a b = le2 a b) ->
  sortBy le1 l = sortBy le2 l.
Proof.
  induction l as [|x l IH]; intros Hext; [reflexivity|].
  cbn [sortBy].
  rewrite IH by (intros a b Ha Hb; apply Hext; right; assumption).
  apply insert_ext. intros b Hb. rewrite sortBy_elem_of in Hb.
  apply Hext; [left|right; exact Hb].
Qed.

(* ------------------------------------------------------------------ *)
(** ** The nodes of one year column *)

(** A year followed by a colon starts a label exactly when the label is
    of that year. *)
Lemma prefix_colon_free (a b r : string) :
  ":"%char ∉ list_ascii_of_string a -> ":"%char ∉ list_ascii_of_string b ->
  String.prefix (a +:+ ":") (b +:+ String ":" r) = true <-> a = b.
Proof.
  revert b. induction a as [|d a IH]; intros [|c b] Ha Hb.
  - change (String.prefix ":" (String ":" r) = true <-> "" = "").
    cbn [String.prefix]. destruct (ascii_dec ":" ":") as [_|Hne]; [|congruence].
    destruct r; cbn; tauto.
  - change (String.prefix ":" (String c (b +:+ String ":" r)) = true
            <-> "" = String c b).
    cbn [String.prefix].
    destruct (ascii_dec ":" c) as [<-|_].
    + exfalso. apply Hb. cbn. left.
    + split; discriminate.
  - change (String.prefix (String d (a +:+ ":")) (String ":" r) = true
            <-> String d a = "").
    cbn [String.prefix].
    destruct (ascii_dec d ":") as [->|_].
    + exfalso. apply Ha. cbn. left.
    + split; discriminate.
  - change (String.prefix (String d (a +:+ ":"))
                          (String c (b +:+ String ":" r)) = true
            <-> String d a = String c b).
    cbn [String.prefix].
    cbn [list_ascii_of_string] in Ha, Hb.
    destruct (ascii_dec d c) as [->|Hne].
    + rewrite IH; [split; congruence| |];
        intros H; [apply Ha|apply Hb]; right; exact H.
    + split; [discriminate|congruence].
Qed.

Lemma prefix_nodeKey (y y' : Z) (cat : string) :
  String.prefix (pretty y ++ ":") (nodeKey y' cat) = true <-> y = y'.
Proof.
  unfold nodeKey.
  change (pretty y' +:+ ": " +:+ cat)
    with (pretty y' +:+ String ":" (String " " cat)).
  rewrite prefix_colon_free by apply pretty_Z_no_colon.
  split; [apply (inj pretty)|congruence].
Qed.

(** The position of a node, cut into its year and its category. *)
Lemma allKeys_lookup_inv (YEARS : list Z) (k : nat) :
  (k < 7 * length YEARS)%nat ->
  exists (i j : nat) (y : Z) (cat : string),
    k = (7 * i + j)%nat /\ (j < 7)%nat
    /\ YEARS !! i = Some y /\ CAT_ORDER !! j = Some cat
    /\ allKeys YEARS !! k = Some (nodeKey y cat).
Proof.
  intros Hk.
  assert (Hi : (k / 7 < length YEARS)%nat)
    by (apply Nat.Div0.div_lt_upper_bound; lia).
  assert (Hj : (k mod 7 < length CAT_ORDER)%nat)
    by (change (length CAT_ORDER) with 7%nat; apply Nat.mod_upper_bound; lia).
  apply lookup_lt_is_Some_2 in Hi as [y Hy].
  apply lookup_lt_is_Some_2 in Hj as [cat Hc].
  exists (k / 7)%nat, (k mod 7)%nat, y, cat.
  pose proof (Nat.div_mod_eq k 7) as E.
  split; [exact E|].
  split; [apply Nat.mod_upper_bound; lia|].
  split; [exact Hy|]. split; [exact Hc|].
  unfold allKeys. rewrite list_lookup_fmap.
  rewrite E at 1. rewrite (allPairs_lookup YEARS _ _ y cat Hy Hc). reflexivity.
Qed.

Lemma filter_seq_range (P : nat -> Prop) `{!forall k, Decision (P k)}
    (N a len : nat) :
  (a + len <= N)%nat ->
  (forall k, (k < N)%nat -> (P k <-> (a <= k < a + len)%nat)) ->
  filter P (seq 0 N) = seq a len.
Proof.
  intros Hle HP.
  replace N with (a + (len + (N - a - len)))%nat at 1 by lia.
  rewrite !seq_app, !filter_app. cbn [Nat.add].
  rewrite (filter_none P (seq 0 a)), (filter_all P (seq a len)),
    (filter_none P (seq (a + len) _)).
  - rewrite app_nil_r. reflexivity.
  - intros k Hk. apply elem_of_seq in Hk. rewrite HP by lia. lia.
  - intros k Hk. apply elem_of_seq in Hk. rewrite HP by lia. lia.
  - intros k Hk. apply elem_of_seq in Hk. rewrite HP by lia. lia.
Qed.

Lemma indexOf_CAT_ORDER (j : nat) (cat : string) :
  CAT_ORDER !! j = Some cat -> indexOf (Some cat) CAT_ORDER 0 = Z.of_nat j.
Proof.
  intros H.
  do 7 (destruct j as [|j]; [injection H as <-; vm_compute; reflexivity|]).
  discriminate H.
Qed.

Lemma seq_sorted (a len : nat) :
  StronglySorted (fun x y => Nat.leb x y = true) (seq a len).
Proof.
  revert a. induction len as [|len IH]; intros a; cbn [seq]; constructor.
  - apply IH.
  - apply Forall_forall. intros k Hk. apply elem_of_seq in Hk.
    apply Nat.leb_le. lia.
Qed.

Section YearColumn.
Variable YEARS : list Z.
Hypothesis YEARS_NoDup : NoDup YEARS.

Lemma catIndex_allKeys (i j : nat) (y : Z) (cat : string) :
  YEARS !! i = Some y -> CAT_ORDER !! j = Some cat ->
  catIndex (allKeys YEARS) (7 * i + j) = Z.of_nat j.
Proof.
  intros Hy Hc. unfold catIndex, allKeys.
  rewrite list_lookup_fmap, (allPairs_lookup YEARS i j y cat Hy Hc).
  cbn [fmap option_fmap option_map default from_option id fst snd].
  rewrite split_nodeKey by (eapply list_elem_of_lookup_2; exact Hc).
  cbn [lookup list_lookup]. apply indexOf_CAT_ORDER, Hc.
Qed.

(** The column of the i-th grid year: the seven positions from 7 i on,
    in their order. *)
Lemma yearColumn_seq (i : nat) (y : Z) :
  YEARS !! i = Some y -> yearColumn (allKeys YEARS) y = seq (7 * i) 7.
Proof.
  intros Hy. unfold yearColumn.
  assert (Hlen : length (allKeys YEARS) = (7 * length YEARS)%nat)
    by (unfold allKeys; rewrite length_fmap; apply allPairs_length).
  pose proof (lookup_lt_Some _ _ _ Hy) as Hi.
  rewrite (filter_seq_range _ _ (7 * i) 7).
  - rewrite (sortBy_ext_in _ Nat.leb).
    + apply sortBy_sorted_id, seq_sorted.
    + intros a b Ha Hb. apply elem_of_seq in Ha, Hb.
      assert (Hcat : forall k, (7 * i <= k < 7 * i + 7)%nat ->
                catIndex (allKeys YEARS) k = Z.of_nat (k - 7 * i)).
      { intros k Hk.
        assert (Hj : (k - 7 * i < length CAT_ORDER)%nat)
          by (change (length CAT_ORDER) with 7%nat; lia).
        apply lookup_lt_is_Some_2 in Hj as [cat Hc].
        replace k with (7 * i + (k - 7 * i))%nat at 1 by lia.
        apply (catIndex_allKeys i _ y cat Hy Hc). }
      rewrite !Hcat by lia.
      destruct (Nat.leb a b) eqn:E.
      * apply Nat.leb_le in E. apply Z.leb_le. lia.
      * apply Nat.leb_gt in E. apply Z.leb_gt. lia.
  - rewrite Hlen. lia.
  - intros k Hk. rewrite Hlen in Hk.
    destruct (allKeys_lookup_inv YEARS k Hk)
      as (i' & j' & y' & cat' & -> & Hj' & Hy' & Hc' & Hn).
    rewrite Hn. cbn [default from_option id].
    rewrite Is_true_true, prefix_nodeKey. split.
    + intros ->.
      assert (i' = i) by (eapply NoDup_lookup; eassumption). lia.
    + intros Hr. assert (i' = i) by lia. subst i'. congruence.
Qed.
(** The nodes whose label starts with the year and a colon. *)
Lemma yearNodes_seq (i : nat) (y : Z) :
  YEARS !! i = Some y ->
  filter (fun k => String.prefix (pretty y ++ ":")
                     (default "" (allKeys YEARS !! k)))
         (seq 0 (length (allKeys YEARS)))
  = seq (7 * i) 7.
Proof.
  intros Hy.
  assert (Hlen : length (allKeys YEARS) = (7 * length YEARS)%nat)
    by (unfold allKeys; rewrite length_fmap; apply allPairs_length).
  pose proof (lookup_lt_Some _ _ _ Hy) as Hi.
  apply filter_seq_range.
  - rewrite Hlen. lia.
  - intros k Hk. rewrite Hlen in Hk.
    destruct (allKeys_lookup_inv YEARS k Hk)
      as (i' & j' & y' & cat' & -> & Hj' & Hy' & Hc' & Hn).
    rewrite Hn. cbn [default from_option id].
    rewrite Is_true_true, prefix_nodeKey. split.
    + intros ->.
      assert (i' = i) by (eapply NoDup_lookup; eassumption). lia.
    + intros Hr. assert (i' = i) by lia. subst i'. congruence.
Qed.
End YearColumn.

(** X23: the column of a year in the layout.  For the i-th year of the
    grid of a run that succeeds, the nodes whose label starts with the
    year and a colon are the seven nodes at the positions 7 i to 7 i + 6
    and no node of another year, whatever the years of the grid are; the
    j-th of them has the position j in [CAT_ORDER], so that sorting the
    column by category leaves it as it is. *)
Theorem layout_year_column (mergedSnap : list Weighted) (g : SankeyData)
    (i : nat) (y : Z) :
  buildSankey mergedSnap = inr g ->
  yearGrid mergedSnap !! i = Some y ->
  filter (fun k => String.prefix (pretty y ++ ":")
                     (default "" (nodes g !! k)))
         (seq 0 (length (nodes g)))
  = seq (7 * i) 7
  /\ (forall j, (j < 7)%nat ->
        catIndex (nodes g) (7 * i + j) = Z.of_nat j)
  /\ yearColumn (nodes g) y = seq (7 * i) 7.
Proof.
  intros Hrun Hy.
  apply buildSankey_inr in Hrun as (_ & _ & Hn & _).
  pose proof (yearGrid_NoDup mergedSnap) as Hnd.
  rewrite Hn, (buildNodes_nodes _ Hnd).
  split; [apply (yearNodes_seq _ Hnd i y Hy)|].
  split; [|apply (yearColumn_seq _ Hnd i y Hy)].
  intros j Hj.
  assert (Hc : (j < length CAT_ORDER)%nat)
    by (change (length CAT_ORDER) with 7%nat; exact Hj).
  apply lookup_lt_is_Some_2 in Hc as [cat Hc].
  apply (catIndex_allKeys _ i j y cat Hy Hc).
Qed.

Lemma layout_year_column_witness :
  exists g, buildSankey scenario = inr g
            /\ yearColumn (nodes g) 2024 = [7; 8; 9; 10; 11; 12; 13]%nat.
Proof.
  assert (H : exists g, buildSankey scenario = inr g).
  { vm_compute. eexists. reflexivity. }
  destruct H as (g & Hrun). exists g. split; [exact Hrun|].
  destruct (layout_year_column scenario g 1 2024 Hrun) as (_ & _ & H);
    [vm_compute; reflexivity|exact H].
Defined.

(* ------------------------------------------------------------------ *)
(** ** Which missing column is reported *)

Lemma find_first {A : Type} (f : A -> bool) (l : list A) (i : nat) (c : A) :
  l !! i = Some c -> f c = true ->
  (forall j c', (j < i)%nat -> l !! j = Some c' -> f c' = false) ->
  find f l = Some c.
Proof.
  revert i. induction l as [|a l IH]; intros i Hi Hc Hbefore; [discriminate Hi|].
  destruct i as [|i]; cbn in Hi.
  - injection Hi as ->. cbn. rewrite Hc. reflexivity.
  - cbn. rewrite (Hbefore 0%nat a) by (reflexivity || lia).
    apply (IH i Hi Hc). intros j c' Hj Hc'. apply (Hbefore (S j) c'); [lia|exact Hc'].
Qed.

(** X19: the column check reports the first missing column.  The
    required columns are looked for in the order DT, REGN,
    total_deposits, state_equity_pct; the run fails with the message of
    the first one that the table lacks, whatever else is missing.  A
    table without rows has no columns, so it is refused for the column
    DT. *)
Theorem first_missing_column_reported (ln : Q -> Q) (table : Table) :
  REQUIRED_COLUMNS = ["DT"; "REGN"; "total_deposits"; "state_equity_pct"]
  /\ (forall (i : nat) (c : string),
        REQUIRED_COLUMNS !! i = Some c -> c ∉ dfColumns table ->
        (forall j c', (j < i)%nat -> REQUIRED_COLUMNS !! j = Some c' ->
                      c' ∈ dfColumns table) ->
        processParquetData ln table = inl (errColumn c))
  /\ (rows table = [] ->
      processParquetData ln table
      = inl "Expected column 'DT' not found in data").
Proof.
  assert (Hfirst : forall (i : nat) (c : string),
            REQUIRED_COLUMNS !! i = Some c -> c ∉ dfColumns table ->
            (forall j c', (j < i)%nat -> REQUIRED_COLUMNS !! j = Some c' ->
                          c' ∈ dfColumns table) ->
            processParquetData ln table = inl (errColumn c)).
  { intros i c Hi Hc Hbefore. unfold processParquetData, missingColumn.
    rewrite (find_first _ _ i c Hi); [reflexivity| |].
    - apply bool_decide_eq_true. exact Hc.
    - intros j c' Hj Hc'. apply bool_decide_eq_false.
      intros Hn. exact (Hn (Hbefore j c' Hj Hc')). }
  split; [reflexivity|]. split; [exact Hfirst|].
  intros Hrows. apply (Hfirst 0%nat "DT" eq_refl).
  - unfold dfColumns. rewrite Hrows. intros H. inversion H.
  - intros j c' Hj. lia.
Qed.

Lemma first_missing_column_reported_witness :
  processParquetData lnApprox table_no_REGN
  = inl "Expected column 'REGN' not found in data"
  /\ processParquetData lnApprox (mkTable REQUIRED_COLUMNS [])
     = inl "Expected column 'DT' not found in data".
Proof.
  destruct (first_missing_column_reported lnApprox table_no_REGN) as (_ & H & _).
  destruct (first_missing_column_reported lnApprox (mkTable REQUIRED_COLUMNS []))
    as (_ & _ & H').
  split; [|apply H'; reflexivity].
  apply (H 1%nat "REGN" eq_refl).
  - vm_compute. intros Hin. apply list_elem_of_In in Hin. cbn in Hin.
    repeat (destruct Hin as [Hin|Hin]; [discriminate Hin|]). exact Hin.
  - intros j c' Hj Hc'. assert (j = 0%nat) by lia. subst j.
    injection Hc' as <-. vm_compute. left.
Defined.

(* ------------------------------------------------------------------ *)
(** ** The run under danfojs *)

Section Run.
Variables (paramError lengthError : string).
Variable rest : Table -> Danfojs.Failure + SankeyData.

Let run := Danfojs.processParquetData paramError lengthError rest.

(** The setter refuses what [toDateTime] returns. *)
Lemma setDT_toDateTime (DF : Table) (series : list date) :
  Danfojs.setDT paramError lengthError DF (Danfojs.toDateTime series)
  = inl (Danfojs.LibraryError paramError).
Proof. reflexivity. Qed.

(** A run ends at the column check or at line 150. *)
Lemma run_outcome (table : Table) :
  run table
  = inl (match missingColumn table with
         | Some c => Danfojs.SourceError (errColumn c)
         | None => Danfojs.LibraryError paramError
         end).
Proof.
  unfold run, Danfojs.processParquetData.
  destruct (missingColumn table); [reflexivity|].
  rewrite setDT_toDateTime. reflexivity.
Qed.

End Run.


(** *** The run on the example tables

    Each of the tables below has the four columns and rows, so the run
    on it ends at line 150: none of the later steps is reached. *)

Ltac run_at_line_150 :=
  intros; rewrite run_outcome; vm_compute; reflexivity.





(** C6: a table whose rows are all of one year, a table without any
    volume and a table with a flow have the same outcome, the error of
    the library: not the error of line 221, not the error of line 271,
    and not a graph. *)
Theorem every_full_table_fails_alike (paramError lengthError : string)
    (rest : Table -> Danfojs.Failure + SankeyData) :
  let run := Danfojs.processParquetData paramError lengthError rest in
  run table_one_year = inl (Danfojs.LibraryError paramError)
  /\ run table_no_volume = inl (Danfojs.LibraryError paramError)
  /\ run table_ok = inl (Danfojs.LibraryError paramError).
Proof. repeat split; run_at_line_150. Qed.



(* ------------------------------------------------------------------ *)
(** ** The page *)

Lemma errorText_cons (err : Page.Thrown) :
  exists c rest, Page.errorText err = String c rest.
Proof.
  unfold Page.errorText.
  change ("Failed to process file: " +:+ ?m) with
    (String "F" ("ailed to process file: " +:+ m)).
  eexists _, _. reflexivity.
Qed.

Lemma view_loading :
  Page.App_view (Page.mkAppState None true None) = [Page.LoadingPanel].
Proof. reflexivity. Qed.

Lemma view_error (err : Page.Thrown) :
  Page.App_view (Page.mkAppState None false (Some (Page.errorText err)))
  = [Page.ErrorPanel (Page.errorText err)].
Proof.
  destruct (errorText_cons err) as (c & rest & E).
  unfold Page.App_view. cbn [Page.chartData Page.isLoading Page.error].
  rewrite E. reflexivity.
Qed.

Section Session.
Variables (paramError lengthError : string).
Variable rest : Table -> Danfojs.Failure + SankeyData.

(** What the [try] block ends in: always a thrown value. *)
Lemma awaited_thrown (f : Page.File) :
  Page.awaited paramError lengthError rest f
  = inl (match f with
         | Page.Unreadable err => err
         | Page.Readable table =>
             Page.ErrorWith
               (match missingColumn table with
                | Some c => errColumn c
                | None => paramError
                end)
         end).
Proof.
  destruct f as [err|table]; [reflexivity|].
  unfold Page.awaited. rewrite (run_outcome paramError lengthError rest).
  destruct (missingColumn table); reflexivity.
Qed.

(** The two states an upload leaves. *)
Lemma upload_settled (f : Page.File) :
  Page.handleFileUpload paramError lengthError rest (Some f)
  = [ Page.mkAppState None true None;
      Page.mkAppState None false
        (Some (Page.errorText
                 (match f with
                  | Page.Unreadable err => err
                  | Page.Readable table =>
                      Page.ErrorWith
                        (match missingColumn table with
                         | Some c => errColumn c
                         | None => paramError
                         end)
                  end))) ].
Proof.
  unfold Page.handleFileUpload. rewrite awaited_thrown. reflexivity.
Qed.
End Session.

(** X20: what the page shows.  Choosing a file shows the loading block
    and then the error block, never the chart: for a readable table the
    text is "Failed to process file: ", the message of the run (that of
    the first missing column, or that of the library at line 150 when the
    four columns are there) and the advice; choosing no file changes
    nothing.  In every state of a session exactly one block is on the
    page, and the upload block is there in the state at mount only, so
    one file is handled per session. *)
Theorem page_shows_one_panel (paramError lengthError : string)
    (rest : Table -> Danfojs.Failure + SankeyData) :
  (forall table : Table,
     Page.App_view <$>
       Page.handleFileUpload paramError lengthError rest
         (Some (Page.Readable table))
     = [ [Page.LoadingPanel];
         [Page.ErrorPanel
            ("Failed to process file: "
             +:+ match missingColumn table with
                 | Some c => errColumn c
                 | None => paramError
                 end
             +:+ ". Please ensure it is the correct Parquet file and format.")] ])
  /\ Page.handleFileUpload paramError lengthError rest None = []
  /\ forall s : Page.AppState,
       Page.App_reachable paramError lengthError rest s ->
       length (Page.App_view s) = 1%nat
       /\ (Page.UploadPanel ∈ Page.App_view s <-> s = Page.App_initial)
       /\ (forall data, Page.ChartPanel data ∉ Page.App_view s)
       /\ (forall text, Page.ErrorPanel text ∈ Page.App_view s ->
             exists err, text = Page.errorText err).
Proof.
  split; [|split; [reflexivity|]].
  - intros table. rewrite upload_settled. cbn [fmap list_fmap].
    rewrite view_loading, view_error. reflexivity.
  - intros s H. induction H as [|s file s' H IH Hup Hs'].
    + split; [reflexivity|]. split; [split; [reflexivity|intros _; left]|].
      split.
      * intros data Hx. cbn in Hx. apply list_elem_of_singleton in Hx.
        discriminate Hx.
      * intros x Hx. cbn in Hx. apply list_elem_of_singleton in Hx.
        discriminate Hx.
    + destruct file as [f|]; [|inversion Hs'].
      rewrite upload_settled in Hs'.
      apply elem_of_cons in Hs' as [->|Hs'].
      { rewrite view_loading. split; [reflexivity|].
        split; [split; intros Hx;
                  [apply list_elem_of_singleton in Hx|]; discriminate Hx|].
        split; intros x Hx; apply list_elem_of_singleton in Hx; discriminate Hx. }
      apply list_elem_of_singleton in Hs'. subst s'.
      rewrite view_error. split; [reflexivity|].
      split; [split; intros Hx;
                [apply list_elem_of_singleton in Hx|]; discriminate Hx|].
      split; intros x Hx; apply list_elem_of_singleton in Hx;
        [discriminate Hx|].
      injection Hx as ->. eexists. reflexivity.
Qed.

Lemma page_shows_one_panel_witness :
  Page.App_view <$>
    Page.handleFileUpload "" "" (fun _ => inl (Danfojs.SourceError ""))
      (Some (Page.Readable table_no_REGN))
  = [ [Page.LoadingPanel];
      [Page.ErrorPanel
         "Failed to process file: Expected column 'REGN' not found in data. Please ensure it is the correct Parquet file and format."] ].
Proof.
  destruct (page_shows_one_panel "" "" (fun _ => inl (Danfojs.SourceError "")))
    as (H1 & _ & _).
  etransitivity; [exact (H1 table_no_REGN)|vm_compute; reflexivity].
Defined.

(* ------------------------------------------------------------------ *)
(** ** The chart *)

Lemma chart_nodeX (data : SankeyData) (es : list Page.ChartEvent) :
  Page.nodeX (foldl (Page.SankeyChart_on data) (Page.SankeyChart_mount data) es)
  = xs data.
Proof.
  induction es as [|e es IH] using rev_ind; [reflexivity|].
  rewrite foldl_snoc.
  set (s := foldl _ _ es) in *.
  destruct e as [m|m| |[[[node_y|]]|]]; cbn; try exact IH; try reflexivity;
    destruct (Page.layoutMode s); cbn; try exact IH; reflexivity.
Qed.

(** X21: the positions the chart keeps.  After any sequence of button
    presses and restyle events the x positions handed to Plotly are the
    ones the pipeline computed: a node is never moved to another column.
    As long as "Tidy Rows" was never pressed the layout mode is fixed and
    the y positions are the computed ones too; in fixed mode a restyle
    event changes nothing; "Reset Positions" restores the fixed mode and
    the computed positions and keeps the thickness mode; and y positions
    other than the computed ones are always the first entry of the
    ['node.y'] of a restyle event that occurred.  Pressing "Lock Columns"
    alone does not restore them. *)
Theorem chart_positions (data : SankeyData) (es : list Page.ChartEvent) :
  let s := foldl (Page.SankeyChart_on data) (Page.SankeyChart_mount data) es in
  Page.trace_x (Page.SankeyChart_trace data s) = xs data
  /\ (Page.setLayoutMode Page.freeform ∉ es ->
      Page.layoutMode s = Page.fixed /\ Page.nodeY s = Some (ys data))
  /\ (Page.layoutMode s = Page.fixed ->
      forall eventData,
        Page.SankeyChart_on data s (Page.restyleListener eventData) = s)
  /\ Page.SankeyChart_on data s Page.resetPositions
     = Page.mkChartState (Page.thicknessMode s) Page.fixed (xs data)
                         (Some (ys data))
  /\ (Page.nodeY s <> Some (ys data) ->
      exists node_y,
        Page.restyleListener (Some (Page.mkRestyle (Some node_y))) ∈ es
        /\ Page.nodeY s = head node_y)
  /\ (forall s0 : Page.ChartState,
        Page.nodeY (Page.SankeyChart_on data s0 (Page.setLayoutMode Page.fixed))
        = Page.nodeY s0).
Proof.
  intros s. split; [apply chart_nodeX|].
  split.
  { subst s. induction es as [|e es IH] using rev_ind; [intros _; split; reflexivity|].
    intros Hn. rewrite foldl_snoc.
    destruct IH as [IH1 IH2].
    { intros Hin. apply Hn, elem_of_app. left. exact Hin. }
    set (s := foldl _ _ es) in *.
    destruct e as [m|m| |eventData]; cbn.
    - split; assumption.
    - split; [|assumption]. destruct m; [reflexivity|].
      exfalso. apply Hn, elem_of_app. right. left.
    - split; reflexivity.
    - rewrite IH1. split; assumption. }
  split.
  { intros Hf eventData. cbn. rewrite Hf. reflexivity. }
  split; [reflexivity|].
  split; [|reflexivity].
  subst s. induction es as [|e es IH] using rev_ind.
  { intros H. exfalso. apply H. reflexivity. }
  rewrite foldl_snoc. set (s := foldl _ _ es) in *.
  assert (Hkeep : Page.nodeY s <> Some (ys data) ->
            exists node_y,
              Page.restyleListener (Some (Page.mkRestyle (Some node_y)))
                ∈ es ++ [e]
              /\ Page.nodeY s = head node_y).
  { intros H. destruct (IH H) as (node_y & Hin & E).
    exists node_y. split; [apply elem_of_app; left; exact Hin|exact E]. }
  destruct e as [m|m| |[[[node_y|]]|]]; cbn; try exact Hkeep.
  - intros H. exfalso. apply H. reflexivity.
  - destruct (Page.layoutMode s); [exact Hkeep|].
    cbn. intros _. exists node_y. split; [|reflexivity].
    apply elem_of_app. right. left.
  - destruct (Page.layoutMode s); exact Hkeep.
  - destruct (Page.layoutMode s); exact Hkeep.
Qed.
